(** * Guahh Auth widget: a shallow embedding of [guahh-auth.js] and of the
    convenience layer [guahh-auth-api.js], with the properties of the
    session/handshake manager.

    Layout:
    - [JS]: the JavaScript values the widget handles, truthiness, property
      reads, [JSON.stringify], [JSON.parse], [ToString] and the query-string
      serialisation of [URLSearchParams];
    - [Widget]: the module state of [guahh-auth.js] (callback registries,
      tracked popup, message listeners, poll timers, [localStorage]) and its
      six public operations, the message listener and the poll tick;
    - [API]: [showLogin], [getCurrentUser], [isLoggedIn], [logout], [onLogin]
      and [onLogout] of [guahh-auth-api.js];
    - [Page]: the actions of a page and its runs;
    - [Obs] and [Sample]: the vocabulary of the properties and a sample page;
    - facts about the JSON functions and about the widget, then the
      properties themselves. *)

From Stdlib Require Import String Ascii List ZArith Lia Bool.
From stdpp Require Import gmap strings list pretty.

Local Open Scope string_scope.
Local Open Scope list_scope.

(* ===================================================================== *)
(** * JavaScript values and the platform functions the widget calls *)
(* ===================================================================== *)
Module JS.

(** The values that travel through the widget: message payloads arrive by
    structured clone and session data by [JSON.parse], so no function occurs
    in them.  A string is a sequence of code units below 256.  Numbers are not
    part of this fragment (the widget never computes with a payload).  An
    array is its elements, an object its own properties in property
    order. *)
#[local] Unset Elimination Schemes.
Inductive value : Type :=
| VUndefined
| VNull
| VBool (b : bool)
| VStr (s : string)
| VArr (elems : list value)
| VObj (props : list (string * value)).
#[local] Set Elimination Schemes.

(** Induction that reaches the elements of arrays and the properties of
    objects. *)
Section value_induction.
Variable P : value -> Prop.
Hypothesis Hundef : P VUndefined.
Hypothesis Hnull : P VNull.
Hypothesis Hbool : forall b, P (VBool b).
Hypothesis Hstr : forall s, P (VStr s).
Hypothesis Harr : forall l, Forall P l -> P (VArr l).
Hypothesis Hobj : forall ps, Forall (fun kv => P (snd kv)) ps -> P (VObj ps).

Fixpoint value_ind' (v : value) : P v :=
    match v with
    | VUndefined => Hundef
    | VNull => Hnull
    | VBool b => Hbool b
    | VStr s => Hstr s
    | VArr l =>
        Harr l ((fix go (l : list value) : Forall P l :=
                   match l with
                   | [] => @List.Forall_nil _ P
                   | x :: r => @List.Forall_cons _ P x r (value_ind' x) (go r)
                   end) l)
    | VObj ps =>
        Hobj ps ((fix go (l : list (string * value))
                    : Forall (fun kv => P (snd kv)) l :=
                    match l with
                    | [] => @List.Forall_nil _ _
                    | kv :: r =>
                        @List.Forall_cons _ (fun kv => P (snd kv)) kv r
                          (value_ind' (snd kv)) (go r)
                    end) ps)
    end.
End value_induction.

(** [ToBoolean]: what [if (v)], [v && _] and [v || _] test. *)
Definition truthy (v : value) : bool :=
  match v with
  | VUndefined | VNull => false
  | VBool b => b
  | VStr s => negb (String.eqb s "")
  | VArr _ | VObj _ => true
  end.

(** [a || b] on values. *)
Definition or_else (a b : value) : value := if truthy a then a else b.

(** The first property named [k], if any. *)
Fixpoint lookup_prop (k : string) (ps : list (string * value)) : option value :=
  match ps with
  | [] => None
  | (k', v) :: r => if String.eqb k k' then Some v else lookup_prop k r
  end.

(** What a statement completes with: a value, or a thrown error. *)
Inductive error : Type :=
| TypeError
| SyntaxError
| AppError (h : nat).   (* thrown by the application's handler [h] *)

Inductive completion (A : Type) : Type :=
| Normal (a : A)
| Throw (e : error)
| Unmodelled.           (* the input leaves the fragment modelled here *)
Arguments Normal {A} a.
Arguments Throw {A} e.
Arguments Unmodelled {A}.

Definition bindc {A B} (c : completion A) (k : A -> completion B) : completion B :=
  match c with
  | Normal a => k a
  | Throw e => Throw e
  | Unmodelled => Unmodelled
  end.

#[global] Instance completion_bind : MBind completion :=
  fun A B k c => bindc c k.

(** [v.k] for the names the widget reads ([type], [user], [service],
    [authPageUrl], [name], [url]): reading a property of [undefined] or
    [null] throws a [TypeError]; a boolean, a string and an array have none
    of these names; an object answers with its own property or
    [undefined]. *)
Definition get (v : value) (k : string) : completion value :=
  match v with
  | VUndefined | VNull => Throw TypeError
  | VBool _ | VStr _ | VArr _ => Normal VUndefined
  | VObj ps => Normal (default VUndefined (lookup_prop k ps))
  end.

(** ** [JSON.stringify] *)

Definition dquote : ascii := "034"%char.

Definition hex_digit (n : N) : ascii :=
  match n with
  | 0 => "0" | 1 => "1" | 2 => "2" | 3 => "3" | 4 => "4" | 5 => "5"
  | 6 => "6" | 7 => "7" | 8 => "8" | 9 => "9" | 10 => "a" | 11 => "b"
  | 12 => "c" | 13 => "d" | 14 => "e" | _ => "f"
  end%N%char.

(** [QuoteJSONString]: the two-character escapes, [\u00xx] for the other
    control characters, every other code unit as it is. *)
Definition escape_char (c : ascii) : string :=
  match c with
  | "034"%char => String "\" (String dquote "")
  | "\"%char => "\\"
  | "008"%char => "\b"
  | "012"%char => "\f"
  | "010"%char => "\n"
  | "013"%char => "\r"
  | "009"%char => "\t"
  | _ =>
      if (N_of_ascii c <? 32)%N
      then "\u00" +:+ String (hex_digit (N_of_ascii c / 16))
                        (String (hex_digit (N_of_ascii c mod 16)) "")
      else String c ""
  end.

Fixpoint escape (s : string) : string :=
  match s with
  | EmptyString => ""
  | String c r => escape_char c +:+ escape r
  end.

Definition quote (s : string) : string :=
  String dquote (escape s +:+ String dquote "").

Fixpoint join (sep : string) (l : list string) : string :=
  match l with
  | [] => ""
  | [x] => x
  | x :: r => x +:+ sep +:+ join sep r
  end.

(** [JSON.stringify(v)]: [None] is JavaScript's [undefined] result.  In an
    array [undefined] prints as [null]; in an object a property whose value
    is [undefined] is left out. *)
Fixpoint JSON_stringify (v : value) : option string :=
  match v with
  | VUndefined => None
  | VNull => Some "null"
  | VBool b => Some (if b then "true" else "false")
  | VStr s => Some (quote s)
  | VArr l =>
      Some ("[" +:+ join "," (List.map (fun x => default "null" (JSON_stringify x)) l)
                +:+ "]")
  | VObj ps =>
      Some ("{" +:+ join ","
                    (List.flat_map
                       (fun kv =>
                          match JSON_stringify (snd kv) with
                          | Some s => [quote (fst kv) +:+ ":" +:+ s]
                          | None => []
                          end) ps)
                +:+ "}")
  end.

(** ** [JSON.parse] *)

Definition is_ws (c : ascii) : bool :=
  match c with
  | " " | "009" | "010" | "013" => true
  | _ => false
  end%char.

Fixpoint skip_ws (s : string) : string :=
  match s with
  | String c r => if is_ws c then skip_ws r else s
  | EmptyString => ""
  end.

Definition hex_value (c : ascii) : option N :=
  let n := N_of_ascii c in
  if ((48 <=? n) && (n <=? 57))%N then Some (n - 48)%N          (* 0-9 *)
  else if ((97 <=? n) && (n <=? 102))%N then Some (n - 87)%N    (* a-f *)
  else if ((65 <=? n) && (n <=? 70))%N then Some (n - 55)%N     (* A-F *)
  else None.

Definition hex4 (a b c d : ascii) : option N :=
  match hex_value a, hex_value b, hex_value c, hex_value d with
  | Some x, Some y, Some z, Some w => Some (((x * 16 + y) * 16 + z) * 16 + w)%N
  | _, _, _, _ => None
  end.

(** The character a two-character escape stands for. *)
Definition unescape (e : ascii) : option ascii :=
  match e with
  | "034" => Some dquote
  | "\" => Some "\"
  | "/" => Some "/"
  | "b" => Some "008"
  | "f" => Some "012"
  | "n" => Some "010"
  | "r" => Some "013"
  | "t" => Some "009"
  | _ => None
  end%char.

Definition cons_char (c : ascii) (r : completion (string * string))
  : completion (string * string) :=
  '(s, rest) ← r; Normal (String c s, rest).

(** The characters of a string literal after its opening quote, up to the
    closing quote: the string read and the text after it. *)
Fixpoint parse_chars (s : string) : completion (string * string) :=
  match s with
  | EmptyString => Throw SyntaxError
  | String c r =>
      if Ascii.eqb c dquote then Normal ("", r)
      else if Ascii.eqb c "\" then
        match r with
        | EmptyString => Throw SyntaxError
        | String e r1 =>
            match unescape e with
            | Some d => cons_char d (parse_chars r1)
            | None =>
                if Ascii.eqb e "u" then
                  match r1 with
                  | String h1 (String h2 (String h3 (String h4 r2))) =>
                      match hex4 h1 h2 h3 h4 with
                      | Some n =>
                          if (n <? 256)%N
                          then cons_char (ascii_of_N n) (parse_chars r2)
                          else Unmodelled
                      | None => Throw SyntaxError
                      end
                  | _ => Throw SyntaxError
                  end
                else Throw SyntaxError
            end
        end
      else if (N_of_ascii c <? 32)%N then Throw SyntaxError
      else cons_char c (parse_chars r)
  end.

(** [strip_prefix p s]: [s] without its prefix [p]. *)
Fixpoint strip_prefix (p s : string) : option string :=
  match p, s with
  | EmptyString, _ => Some s
  | String a p', String b s' => if Ascii.eqb a b then strip_prefix p' s' else None
  | String _ _, EmptyString => None
  end.

Definition literal (word : string) (v : value) (s : string)
  : completion (value * string) :=
  match strip_prefix word s with
  | Some r => Normal (v, r)
  | None => Throw SyntaxError
  end.

Definition starts_number (c : ascii) : bool :=
  match c with
  | "-" | "0" | "1" | "2" | "3" | "4" | "5" | "6" | "7" | "8" | "9" => true
  | _ => false
  end%char.

(** [CreateDataProperty]: a repeated name keeps its place and takes the new
    value. *)
Fixpoint set_prop (ps : list (string * value)) (k : string) (v : value)
  : list (string * value) :=
  match ps with
  | [] => [(k, v)]
  | (k', v') :: r =>
      if String.eqb k k' then (k, v) :: r else (k', v') :: set_prop r k v
  end.

(** [expect c s]: the text after [c], when [c] is the next character of [s]
    that is not white space. *)
Definition expect (c : ascii) (s : string) : option string :=
  match skip_ws s with
  | String d r => if Ascii.eqb c d then Some r else None
  | EmptyString => None
  end.

(** Recursive descent over the text.  [n] bounds the nested calls, and
    [2 * String.length s + 1] of them are enough for a text [s]
    ([JSON_parse_fuel]).  A numeric literal leaves the fragment. *)
Fixpoint parse_value (n : nat) (s : string) : completion (value * string) :=
  match n with
  | O => Unmodelled
  | S n' =>
      match skip_ws s with
      | EmptyString => Throw SyntaxError
      | String c r =>
          if Ascii.eqb c dquote then
            '(str, rest) ← parse_chars r; Normal (VStr str, rest)
          else if Ascii.eqb c "[" then
            match expect "]" r with
            | Some rest => Normal (VArr [], rest)
            | None => parse_elements n' r []
            end
          else if Ascii.eqb c "{" then
            match expect "}" r with
            | Some rest => Normal (VObj [], rest)
            | None => parse_members n' r []
            end
          else if Ascii.eqb c "t" then literal "true" (VBool true) (String c r)
          else if Ascii.eqb c "f" then literal "false" (VBool false) (String c r)
          else if Ascii.eqb c "n" then literal "null" VNull (String c r)
          else if starts_number c then Unmodelled
          else Throw SyntaxError
      end
  end
with parse_elements (n : nat) (s : string) (acc : list value)
  : completion (value * string) :=
  match n with
  | O => Unmodelled
  | S n' =>
      '(v, r) ← parse_value n' s;
      match expect "," r with
      | Some rest => parse_elements n' rest (acc ++ [v])
      | None =>
          match expect "]" r with
          | Some rest => Normal (VArr (acc ++ [v]), rest)
          | None => Throw SyntaxError
          end
      end
  end
with parse_members (n : nat) (s : string) (acc : list (string * value))
  : completion (value * string) :=
  match n with
  | O => Unmodelled
  | S n' =>
      match expect dquote s with
      | None => Throw SyntaxError
      | Some r =>
          '(k, r1) ← parse_chars r;
          match expect ":" r1 with
          | None => Throw SyntaxError
          | Some r2 =>
              '(v, r3) ← parse_value n' r2;
              match expect "," r3 with
              | Some rest => parse_members n' rest (set_prop acc k v)
              | None =>
                  match expect "}" r3 with
                  | Some rest => Normal (VObj (set_prop acc k v), rest)
                  | None => Throw SyntaxError
                  end
              end
          end
      end
  end.

(** [JSON.parse(s)]: one value, then nothing but white space. *)
Definition JSON_parse (s : string) : completion value :=
  '(v, r) ← parse_value (2 * String.length s + 1) s;
  match skip_ws r with
  | EmptyString => Normal v
  | String _ _ => Throw SyntaxError
  end.

(** ** Values that survive serialisation *)

Fixpoint distinct (ks : list string) : bool :=
  match ks with
  | [] => true
  | k :: r => negb (existsb (String.eqb k) r) && distinct r
  end.

(** No [undefined] anywhere and no repeated property name: the values
    [JSON.stringify] writes without loss. *)
Fixpoint json_clean (v : value) : bool :=
  match v with
  | VUndefined => false
  | VNull | VBool _ | VStr _ => true
  | VArr l => forallb json_clean l
  | VObj ps =>
      distinct (List.map fst ps) && forallb (fun kv => json_clean (snd kv)) ps
  end.

(** The number of values in [v], itself included. *)
Fixpoint vsize (v : value) : nat :=
  match v with
  | VArr l => S (list_sum (List.map (fun x => S (vsize x)) l))
  | VObj ps => S (list_sum (List.map (fun kv => S (vsize (snd kv))) ps))
  | _ => 1
  end.

(** The characters a printed value starts with. *)
Definition value_start (c : ascii) : bool :=
  Ascii.eqb c dquote || Ascii.eqb c "[" || Ascii.eqb c "{" ||
  Ascii.eqb c "t" || Ascii.eqb c "f" || Ascii.eqb c "n".

(** An array element as [JSON.stringify] prints it. *)
Definition pr (x : value) : string := default "null" (JSON_stringify x).

(** An object property as [JSON.stringify] prints it, if it does. *)
Definition member (kv : string * value) : list string :=
  match JSON_stringify (snd kv) with
  | Some s => [quote (fst kv) +:+ ":" +:+ s]
  | None => []
  end.

(** A value read from [s] leaves less text than [s]. *)
Definition shorter (s : string) (c : completion (value * string)) : Prop :=
  forall v rest, c = Normal (v, rest) -> String.length rest < String.length s.

(** [v]'s printed form, followed by any text, is read back as [v] and the
    text, given [vsize v] nested calls. *)
Definition reads_back (v : value) : Prop :=
  forall n rest, vsize v <= n -> parse_value n (pr v +:+ rest) = Normal (v, rest).

(** ** [ToString] and the query string of [URLSearchParams] *)

(** [ToString(v)]: an array joins its elements with commas, [undefined] and
    [null] elements as the empty string; an object is ["[object Object]"]. *)
Fixpoint to_string (v : value) : string :=
  match v with
  | VUndefined => "undefined"
  | VNull => "null"
  | VBool b => if b then "true" else "false"
  | VStr s => s
  | VArr l =>
      join ","
        (List.map (fun x => match x with
                            | VUndefined | VNull => ""
                            | _ => to_string x
                            end) l)
  | VObj _ => "[object Object]"
  end.

Definition upper_hex_digit (n : N) : ascii :=
  match n with
  | 0 => "0" | 1 => "1" | 2 => "2" | 3 => "3" | 4 => "4" | 5 => "5"
  | 6 => "6" | 7 => "7" | 8 => "8" | 9 => "9" | 10 => "A" | 11 => "B"
  | 12 => "C" | 13 => "D" | 14 => "E" | _ => "F"
  end%N%char.

(** The bytes the form-urlencoded serialiser leaves as they are: [*], [-],
    [.], [_], digits and ASCII letters. *)
Definition urlencoded_safe (b : N) : bool :=
  ((b =? 42) || (b =? 45) || (b =? 46) || (b =? 95) ||
   ((48 <=? b) && (b <=? 57)) || ((65 <=? b) && (b <=? 90)) ||
   ((97 <=? b) && (b <=? 122)))%N.

Definition encode_byte (b : N) : string :=
  if (b =? 32)%N then "+"
  else if urlencoded_safe b then String (ascii_of_N b) ""
  else String "%" (String (upper_hex_digit (b / 16))
                     (String (upper_hex_digit (b mod 16)) "")).

(** The UTF-8 bytes of a code unit below 256. *)
Definition utf8 (c : ascii) : list N :=
  let n := N_of_ascii c in
  if (n <? 128)%N then [n] else [192 + n / 64; 128 + n mod 64]%N.

Fixpoint urlencode (s : string) : string :=
  match s with
  | EmptyString => ""
  | String c r =>
      fold_right (fun b acc => encode_byte b +:+ acc) (urlencode r) (utf8 c)
  end.

(** [new URLSearchParams(record).toString()]. *)
Definition URLSearchParams_toString (params : list (string * value)) : string :=
  join "&" (List.map (fun kv => urlencode (fst kv) +:+ "=" +:+
                               urlencode (to_string (snd kv))) params).

End JS.

(* ===================================================================== *)
(** * [guahh-auth.js] *)
(* ===================================================================== *)
Module Widget.
Import JS.

Definition AUTH_PAGE_URL : string := "guahh-auth-page.html".
Definition STORAGE_KEY : string := "guahh_user".
Definition AUTH_SUCCESS : string := "GUAHH_AUTH_SUCCESS".

(** ** Functions held by the registries

    A function is either the application's (an opaque handler, known by a
    number, which returns or throws when it is called and does not call back
    into the widget), or the arrow function [(user, service) => {
    onSuccess(user, service); }] that [showLogin] builds around its
    [onSuccess] option.  An [arg] is what a caller passes where a function is
    expected. *)
Inductive fn : Type :=
| Handler (id : nat) (throws : bool)
| OnSuccessWrapper (onSuccess : arg)
with arg : Type :=
| Fn (f : fn)
| Val (v : value).

(** [ToBoolean(a)]: a function is truthy. *)
Definition arg_truthy (a : arg) : bool :=
  match a with Fn _ => true | Val v => truthy v end.

(** ** What the widget does to the page *)
Inductive effect : Type :=
| SetItem (key val : string)            (* localStorage.setItem *)
| RemoveItem (key : string)             (* localStorage.removeItem *)
| Called (id : nat) (args : list value) (* an application handler is called *)
| AddListener                           (* window.addEventListener('message', _) *)
| Open (url name features : string)     (* window.open *)
| Focus (w : nat)                       (* authPopup.focus() *)
| Close (w : nat)                       (* authPopup.close(); authPopup = null *)
| SetInterval (t : nat)                 (* setInterval(_, 500) *)
| PollClear (t w : nat)                 (* clearInterval(pollTimer); authPopup = null *)
| ConsoleError (msg : string)
| Alert (msg : string).

(** A message event: its payload, and where it says it comes from. *)
Record event : Type := {
  data : value;
  origin : string;
  source : option nat
}.

(** The listener [init] registers: the arrow function and the [authPageUrl]
    its scope holds. *)
Record listener : Type := { scope_authPageUrl : value }.

(** The page as [show] reads it. *)
Record page : Type := {
  document_title : string;
  location_origin : string;
  screen_width : Z;
  screen_height : Z
}.

(** The module's variables ([callbacks], [authPopup]) and the parts of the
    browser they act on. *)
Record state : Type := {
  localStorage : gmap string string;
  callbacks_login : list fn;
  callbacks_logout : list fn;
  authPopup : option nat;
  listeners : list listener;   (* message listeners, in registration order *)
  intervals : gset nat;        (* poll timers that run *)
  next_timer : nat;            (* the id the next setInterval returns *)
  closed : gset nat;           (* windows whose [closed] is true *)
  trace : list effect          (* what was done so far, oldest first *)
}.

Definition emit (e : effect) (st : state) : state :=
  {| localStorage := localStorage st;
     callbacks_login := callbacks_login st;
     callbacks_logout := callbacks_logout st;
     authPopup := authPopup st;
     listeners := listeners st;
     intervals := intervals st;
     next_timer := next_timer st;
     closed := closed st;
     trace := trace st ++ [e] |}.

Definition set_localStorage (m : gmap string string) (st : state) : state :=
  {| localStorage := m;
     callbacks_login := callbacks_login st;
     callbacks_logout := callbacks_logout st;
     authPopup := authPopup st;
     listeners := listeners st;
     intervals := intervals st;
     next_timer := next_timer st;
     closed := closed st;
     trace := trace st |}.

Definition set_callbacks_login (l : list fn) (st : state) : state :=
  {| localStorage := localStorage st;
     callbacks_login := l;
     callbacks_logout := callbacks_logout st;
     authPopup := authPopup st;
     listeners := listeners st;
     intervals := intervals st;
     next_timer := next_timer st;
     closed := closed st;
     trace := trace st |}.

Definition set_callbacks_logout (l : list fn) (st : state) : state :=
  {| localStorage := localStorage st;
     callbacks_login := callbacks_login st;
     callbacks_logout := l;
     authPopup := authPopup st;
     listeners := listeners st;
     intervals := intervals st;
     next_timer := next_timer st;
     closed := closed st;
     trace := trace st |}.

Definition set_authPopup (w : option nat) (st : state) : state :=
  {| localStorage := localStorage st;
     callbacks_login := callbacks_login st;
     callbacks_logout := callbacks_logout st;
     authPopup := w;
     listeners := listeners st;
     intervals := intervals st;
     next_timer := next_timer st;
     closed := closed st;
     trace := trace st |}.

Definition set_listeners (l : list listener) (st : state) : state :=
  {| localStorage := localStorage st;
     callbacks_login := callbacks_login st;
     callbacks_logout := callbacks_logout st;
     authPopup := authPopup st;
     listeners := l;
     intervals := intervals st;
     next_timer := next_timer st;
     closed := closed st;
     trace := trace st |}.

Definition set_intervals (ts : gset nat) (next : nat) (st : state) : state :=
  {| localStorage := localStorage st;
     callbacks_login := callbacks_login st;
     callbacks_logout := callbacks_logout st;
     authPopup := authPopup st;
     listeners := listeners st;
     intervals := ts;
     next_timer := next;
     closed := closed st;
     trace := trace st |}.

Definition set_closed (ws : gset nat) (st : state) : state :=
  {| localStorage := localStorage st;
     callbacks_login := callbacks_login st;
     callbacks_logout := callbacks_logout st;
     authPopup := authPopup st;
     listeners := listeners st;
     intervals := intervals st;
     next_timer := next_timer st;
     closed := ws;
     trace := trace st |}.

(** ** Statements: a completion and the state they leave

    A thrown error keeps what was done before it. *)
Definition M (A : Type) : Type := state -> completion A * state.

Definition ret {A} (a : A) : M A := fun st => (Normal a, st).
Definition throw {A} (e : error) : M A := fun st => (Throw e, st).
Definition lift {A} (c : completion A) : M A := fun st => (c, st).
Definition act (f : state -> state) : M unit := fun st => (Normal tt, f st).
Definition read {A} (f : state -> A) : M A := fun st => (Normal (f st), st).

Definition bind {A B} (m : M A) (k : A -> M B) : M B :=
  fun st =>
    match m st with
    | (Normal a, st') => k a st'
    | (Throw e, st') => (Throw e, st')
    | (Unmodelled, st') => (Unmodelled, st')
    end.

Notation "x <~ m ;; k" := (bind m (fun x => k))
  (at level 100, m at next level, right associativity).
Notation "m ;;; k" := (bind m (fun _ => k))
  (at level 100, right associativity).

(** ** Browser calls *)

Definition getItem (key : string) : M (option string) :=
  read (fun st => localStorage st !! key).

Definition setItem (key val : string) : M unit :=
  act (fun st => emit (SetItem key val)
                   (set_localStorage (<[key := val]> (localStorage st)) st)).

Definition removeItem (key : string) : M unit :=
  act (fun st => emit (RemoveItem key)
                   (set_localStorage (delete key (localStorage st)) st)).

(** [ToBoolean] of what [getItem] returned: [null] and the empty string are
    falsy. *)
Definition stored_truthy (s : option string) : bool :=
  match s with
  | Some s => negb (String.eqb s "")
  | None => false
  end.

(** ** Calling the registered functions *)

(** [f(args)]: a handler's call is recorded and it returns or throws; the
    [showLogin] wrapper passes its two parameters on to [onSuccess], and
    throws a [TypeError] when [onSuccess] is no function. *)
Fixpoint invoke (f : fn) (args : list value) : M unit :=
  match f with
  | Handler id throws =>
      act (emit (Called id args)) ;;;
      if throws then throw (AppError id) else ret tt
  | OnSuccessWrapper (Fn g) =>
      invoke g [nth 0 args VUndefined; nth 1 args VUndefined]
  | OnSuccessWrapper (Val _) => throw TypeError
  end.

(** [cbs.forEach(cb => cb(...args))]. *)
Fixpoint forEach (cbs : list fn) (args : list value) : M unit :=
  match cbs with
  | [] => ret tt
  | f :: r => invoke f args ;;; forEach r args
  end.

(** ** The public operations *)

(** [callbacks.login.push(callback)] when [callback] is a function, nothing
    otherwise. *)
Definition onLogin (callback : arg) : M unit :=
  match callback with
  | Fn f => act (fun st => set_callbacks_login (callbacks_login st ++ [f]) st)
  | Val _ => ret tt
  end.

Definition onLogout (callback : arg) : M unit :=
  match callback with
  | Fn f => act (fun st => set_callbacks_logout (callbacks_logout st ++ [f]) st)
  | Val _ => ret tt
  end.

(** [storedUser ? JSON.parse(storedUser) : null]. *)
Definition getUser : M value :=
  storedUser <~ getItem STORAGE_KEY ;;
  match storedUser with
  | Some s => if stored_truthy storedUser then lift (JSON_parse s) else ret VNull
  | None => ret VNull
  end.

Definition logout : M unit :=
  user <~ getUser ;;
  removeItem STORAGE_KEY ;;;
  cbs <~ read callbacks_logout ;;
  forEach cbs [user].

(** [localStorage.setItem(STORAGE_KEY, JSON.stringify(user))], the listener's
    "Store user": [setItem] stores the text [undefined] when
    [JSON.stringify] answers [undefined]. *)
Definition setUser (user : value) : M unit :=
  setItem STORAGE_KEY (default "undefined" (JSON_stringify user)).

(** [if (authPopup) { authPopup.close(); authPopup = null; }]. *)
Definition closeIfOpen : M unit :=
  fun st =>
    match authPopup st with
    | Some w =>
        (Normal tt,
         set_authPopup None (set_closed ({[w]} ∪ closed st) (emit (Close w) st)))
    | None => (Normal tt, st)
    end.

(** [t === 'GUAHH_AUTH_SUCCESS']. *)
Definition is_success_tag (t : value) : bool :=
  match t with
  | VStr s => String.eqb s AUTH_SUCCESS
  | _ => false
  end.

(** [event.data && event.data.type === 'GUAHH_AUTH_SUCCESS']. *)
Definition is_auth_success (d : value) : bool :=
  truthy d &&
  match get d "type" with
  | Normal t => is_success_tag t
  | _ => false
  end.

(** The message listener.  It reads [event.data] only, and nothing of its
    own scope. *)
Definition on_message (l : listener) (ev : event) : M unit :=
  if is_auth_success (data ev) then
    user <~ lift (get (data ev) "user") ;;
    service <~ lift (get (data ev) "service") ;;
    setUser user ;;;
    cbs <~ read callbacks_login ;;
    forEach cbs [user; service] ;;;
    closeIfOpen
  else ret tt.

(** A message event reaches every listener in registration order; an error
    thrown by one is reported by the browser and does not stop the next. *)
Fixpoint dispatch (ls : list listener) (ev : event) (st : state) : state :=
  match ls with
  | [] => st
  | l :: r => dispatch r ev (snd (on_message l ev st))
  end.

Definition message (ev : event) (st : state) : state :=
  dispatch (listeners st) ev st.

Definition CACHED_SESSION : value := VObj [("serviceName", VStr "Cached Session")].

(** A parameter's default value [= {}] applies to [undefined] only. *)
Definition or_empty_object (v : value) : value :=
  match v with
  | VUndefined => VObj []
  | _ => v
  end.

Definition init (options : value) : M unit :=
  p <~ lift (get (or_empty_object options) "authPageUrl") ;;
  let authPageUrl := or_else p (VStr AUTH_PAGE_URL) in
  act (fun st =>
         emit AddListener
           (set_listeners
              (listeners st ++ [{| scope_authPageUrl := authPageUrl |}]) st)) ;;;
  storedUser <~ getItem STORAGE_KEY ;;
  if stored_truthy storedUser then
    user <~ lift (JSON_parse (default "" storedUser)) ;;
    cbs <~ read callbacks_login ;;
    forEach cbs [user; CACHED_SESSION]
  else ret tt.

(** [Math.round(extent / 2 - size / 2)] for integers: halves round up. *)
Definition centered (extent size : Z) : Z := (extent - size + 1) `div` 2.

Definition popup_features (pg : page) : string :=
  "width=500,height=650,left=" +:+ pretty (centered (screen_width pg) 500)
  +:+ ",top=" +:+ pretty (centered (screen_height pg) 650)
  +:+ ",resizable=yes,scrollbars=yes,status=yes".

(** The address [show] opens. *)
Definition authUrl (serviceName serviceUrl : value) : string :=
  AUTH_PAGE_URL +:+ "?" +:+
  URLSearchParams_toString [("service", serviceName); ("url", serviceUrl)].

(** [setInterval(poll, 500)]: a new timer runs. *)
Definition setInterval : M unit :=
  act (fun st =>
         emit (SetInterval (next_timer st))
           (set_intervals ({[next_timer st]} ∪ intervals st)
              (S (next_timer st)) st)).

(** [show(serviceInfo)]; [opened] is what [window.open] answers: a window, or
    nothing when the browser blocks the popup. *)
Definition show (serviceInfo : value) (pg : page) (opened : option nat) : M unit :=
  name <~ lift (get (or_empty_object serviceInfo) "name") ;;
  let serviceName :=
    or_else (or_else name (VStr (document_title pg))) (VStr "this service") in
  url <~ lift (get (or_empty_object serviceInfo) "url") ;;
  let serviceUrl := or_else url (VStr (location_origin pg)) in
  act (fun st =>
         set_authPopup opened
           (emit (Open (authUrl serviceName serviceUrl) "GuahhAuth"
                    (popup_features pg)) st)) ;;;
  match opened with
  | Some w => act (emit (Focus w)) ;;; setInterval
  | None =>
      act (emit (ConsoleError "Popup blocked. Please allow popups for this site.")) ;;;
      act (emit (Alert "Please allow popups to sign in with Guahh Account."))
  end.

(** One run of the poll that [show] started as timer [t]:
    [if (authPopup && authPopup.closed) { clearInterval(pollTimer);
    authPopup = null; }].  A cleared timer does not run. *)
Definition poll (t : nat) (st : state) : state :=
  if bool_decide (t ∈ intervals st) then
    match authPopup st with
    | Some w =>
        if bool_decide (w ∈ closed st) then
          set_authPopup None
            (set_intervals (intervals st ∖ {[t]}) (next_timer st)
               (emit (PollClear t w) st))
        else st
    | None => st
    end
  else st.

(** The user closes window [w]. *)
Definition window_closed (w : nat) (st : state) : state :=
  set_closed ({[w]} ∪ closed st) st.

End Widget.

(* ===================================================================== *)
(** * [guahh-auth-api.js] *)
(* ===================================================================== *)
Module API.
Import JS Widget.

(** The options [showLogin] destructures; a missing one is [undefined]. *)
Record login_options : Type := {
  serviceName : value;
  serviceUrl : value;
  onSuccess : arg
}.

Definition showLogin (options : login_options) (pg : page) (opened : option nat)
  : M unit :=
  (if arg_truthy (onSuccess options)
   then Widget.onLogin (Fn (OnSuccessWrapper (onSuccess options)))
   else ret tt) ;;;
  Widget.show (VObj [("name", serviceName options); ("url", serviceUrl options)])
    pg opened.

Definition getCurrentUser : M value := Widget.getUser.

(** [GuahhAuth.getUser() !== null]. *)
Definition isLoggedIn : M bool :=
  user <~ Widget.getUser ;;
  ret (match user with VNull => false | _ => true end).

Definition logout (callback : arg) : M unit :=
  (if arg_truthy callback then Widget.onLogout callback else ret tt) ;;;
  Widget.logout.

Definition onLogin (handler : arg) : M unit := Widget.onLogin handler.
Definition onLogout (handler : arg) : M unit := Widget.onLogout handler.

End API.

(* ===================================================================== *)
(** * Runs of a page *)
(* ===================================================================== *)
Module Page.
Import JS Widget.

(** What can happen on a page that loads the widget: a call of one of its
    operations or of the convenience layer, a message event, a tick of a poll
    timer, the user closing a window. *)
Inductive action : Type :=
| Init (options : value)
| Show (serviceInfo : value) (pg : page) (opened : option nat)
| GetUser
| Logout
| OnLogin (callback : arg)
| OnLogout (callback : arg)
| Message (ev : event)
| Poll (t : nat)
| WindowClosed (w : nat)
| ShowLogin (options : API.login_options) (pg : page) (opened : option nat)
| ApiLogout (callback : arg).

Definition step (a : action) (st : state) : state :=
  match a with
  | Init options => snd (init options st)
  | Show serviceInfo pg opened => snd (show serviceInfo pg opened st)
  | GetUser => snd (getUser st)
  | Logout => snd (logout st)
  | OnLogin callback => snd (onLogin callback st)
  | OnLogout callback => snd (onLogout callback st)
  | Message ev => message ev st
  | Poll t => poll t st
  | WindowClosed w => window_closed w st
  | ShowLogin options pg opened => snd (API.showLogin options pg opened st)
  | ApiLogout callback => snd (API.logout callback st)
  end.

Definition run (acts : list action) (st : state) : state :=
  fold_left (fun st a => step a st) acts st.

(** The window that [window.open] answers with during [a], if any. *)
Definition window_of (a : action) : option nat :=
  match a with
  | Show _ _ opened | ShowLogin _ _ opened => opened
  | _ => None
  end.


End Page.

(* ===================================================================== *)
(** * Vocabulary of the properties *)
(* ===================================================================== *)
Module Obs.
Import JS Widget Page.

(** [f] returns when it is called: a handler that does not throw, or a
    [showLogin] wrapper around a function that returns. *)
Fixpoint returns (f : fn) : bool :=
  match f with
  | Handler _ throws => negb throws
  | OnSuccessWrapper (Fn g) => returns g
  | OnSuccessWrapper (Val _) => false
  end.

(** The handler calls that calling [f] with [args] makes. *)
Fixpoint calls (f : fn) (args : list value) : list effect :=
  match f with
  | Handler id _ => [Called id args]
  | OnSuccessWrapper (Fn g) => calls g [nth 0 args VUndefined; nth 1 args VUndefined]
  | OnSuccessWrapper (Val _) => []
  end.

(** The calls of one dispatch over a registry, in registration order. *)
Definition invocations (cbs : list fn) (args : list value) : list effect :=
  List.flat_map (fun f => calls f args) cbs.

(** [st] with [es] added to what was done. *)
Definition log (es : list effect) (st : state) : state :=
  {| localStorage := localStorage st;
     callbacks_login := callbacks_login st;
     callbacks_logout := callbacks_logout st;
     authPopup := authPopup st;
     listeners := listeners st;
     intervals := intervals st;
     next_timer := next_timer st;
     closed := closed st;
     trace := trace st ++ es |}.

(** The payload is an object whose [type] is the success tag. *)
Definition carries_tag (d : value) : Prop :=
  exists ps, d = VObj ps /\ lookup_prop "type" ps = Some (VStr AUTH_SUCCESS).

(** [d.k] for a payload that is an object. *)
Definition field (d : value) (k : string) : value :=
  match d with
  | VObj ps => default VUndefined (lookup_prop k ps)
  | _ => VUndefined
  end.

(** The text that [setUser] stores. *)
Definition stored_text (user : value) : string :=
  default "undefined" (JSON_stringify user).

(** The effect of closing the tracked popup, if one is tracked. *)
Definition close_effects (w : option nat) : list effect :=
  match w with
  | Some w => [Close w]
  | None => []
  end.

Definition close_windows (w : option nat) (ws : gset nat) : gset nat :=
  match w with
  | Some w => {[w]} ∪ ws
  | None => ws
  end.

(** The state a success message leaves behind one listener whose callbacks
    all return. *)
Definition handshake (user service : value) (st : state) : state :=
  {| localStorage := <[STORAGE_KEY := stored_text user]> (localStorage st);
     callbacks_login := callbacks_login st;
     callbacks_logout := callbacks_logout st;
     authPopup := None;
     listeners := listeners st;
     intervals := intervals st;
     next_timer := next_timer st;
     closed := close_windows (authPopup st) (closed st);
     trace := trace st ++ [SetItem STORAGE_KEY (stored_text user)]
                ++ invocations (callbacks_login st) [user; service]
                ++ close_effects (authPopup st) |}.

(** What one listener adds to the trace for a success message, the closing
    of the popup apart. *)
Definition handshake_block (user service : value) (cbs : list fn) : list effect :=
  SetItem STORAGE_KEY (stored_text user) :: invocations cbs [user; service].

(** What [k] listeners add to the trace for one success message when [w] is
    the tracked popup: the first closes it, the others find none. *)
Definition handshake_trace (k : nat) (w : option nat) (block : list effect)
  : list effect :=
  match k with
  | O => []
  | S k' => block ++ close_effects w ++ concat (repeat block k')
  end.

(** What [init] adds to the trace when it replays the session [user]. *)
Definition replay (user : value) (cbs : list fn) : list effect :=
  AddListener :: invocations cbs [user; CACHED_SESSION].

Definition is_string (v : option value) : bool :=
  match v with Some (VStr _) => true | _ => false end.
Definition is_boolean (v : option value) : bool :=
  match v with Some (VBool _) => true | _ => false end.
Definition is_optional_string (v : option value) : bool :=
  match v with Some (VStr _) | None => true | _ => false end.
Definition is_optional_array (v : option value) : bool :=
  match v with Some (VArr _) | None => true | _ => false end.

(** A well-formed UserRecord, as [getCurrentUser] documents it: [userId],
    [username] and [displayName] are strings, [isVerified] a boolean,
    [profilePictureUrl] a string if present, [connectedServices] an array if
    present; nothing in it is [undefined] and no name repeats. *)
Definition well_formed_user (u : value) : bool :=
  match u with
  | VObj ps =>
      json_clean u &&
      is_string (lookup_prop "userId" ps) &&
      is_string (lookup_prop "username" ps) &&
      is_string (lookup_prop "displayName" ps) &&
      is_optional_string (lookup_prop "profilePictureUrl" ps) &&
      is_boolean (lookup_prop "isVerified" ps) &&
      is_optional_array (lookup_prop "connectedServices" ps)
  | _ => false
  end.



(** A page on which the widget has done nothing yet. *)
Definition fresh_page (storage : gmap string string) : state :=
  {| localStorage := storage;
     callbacks_login := [];
     callbacks_logout := [];
     authPopup := None;
     listeners := [];
     intervals := ∅;
     next_timer := 0;
     closed := ∅;
     trace := [] |}.

(** Neither a handshake closure nor a poll closure. *)
Definition harmless (e : effect) : bool :=
  match e with
  | Close _ | PollClear _ _ => false
  | _ => true
  end.

(** [m] keeps [P], whatever it completes with. *)
Definition preserves {A} (P : state -> Prop) (m : M A) : Prop :=
  forall st, P st -> P (snd (m st)).


(** The registry of login callbacks starts with [base]. *)
Definition login_extends (base : list fn) (st : state) : Prop :=
  exists more, callbacks_login st = base ++ more.

Definition logout_extends (base : list fn) (st : state) : Prop :=
  exists more, callbacks_logout st = base ++ more.

(** A listener whose scope is forgotten, and a state whose listeners are. *)
Definition blank : listener := {| scope_authPageUrl := VUndefined |}.

Definition erase (st : state) : state :=
  set_listeners (List.map (fun _ => blank) (listeners st)) st.

(** [m] does not read what [erase] forgets. *)
Definition sim {A} (m : M A) : Prop :=
  forall s1 s2, erase s1 = erase s2 ->
    fst (m s1) = fst (m s2) /\ erase (snd (m s1)) = erase (snd (m s2)).

(** The session replay of [init]: what it does once the listener is
    registered. *)
Definition init_replays : M unit :=
  storedUser <~ getItem STORAGE_KEY ;;
  if stored_truthy storedUser then
    user <~ lift (JSON_parse (default "" storedUser)) ;;
    cbs <~ read callbacks_login ;;
    forEach cbs [user; CACHED_SESSION]
  else ret tt.

End Obs.

(* ===================================================================== *)
(** * A sample page *)
(* ===================================================================== *)
Module Sample.
Import JS Widget Page Obs.

Definition ada : value :=
  VObj [("userId", VStr "42"); ("username", VStr "ada");
        ("displayName", VStr "Ada L."); ("isVerified", VBool true);
        ("connectedServices", VArr [VStr "mail"; VStr "drive"])].

Definition acme : value := VObj [("name", VStr "Acme")].

Definition success : value :=
  VObj [("type", VStr AUTH_SUCCESS); ("user", ada); ("service", acme)].

(** The same payload from the popup and from another window. *)
Definition from_popup : event :=
  {| data := success; origin := "https://accounts.guahh.test"; source := Some 7 |}.

Definition from_elsewhere : event :=
  {| data := success; origin := "https://elsewhere.test"; source := Some 99 |}.

Definition other_message : event :=
  {| data := VObj [("type", VStr "OTHER")]; origin := "https://accounts.guahh.test";
     source := Some 7 |}.

Definition desktop : page :=
  {| document_title := "Acme";
     location_origin := "https://acme.test";
     screen_width := 1920;
     screen_height := 1080 |}.

Definition closure : listener := {| scope_authPageUrl := VStr AUTH_PAGE_URL |}.

(** Two handlers wait for a login and two for a logout; one listener is
    registered and popup 7 is tracked. *)
Definition waiting : state :=
  {| localStorage := ∅;
     callbacks_login := [Handler 1 false; Handler 2 false];
     callbacks_logout := [Handler 3 false; Handler 4 false];
     authPopup := Some 7;
     listeners := [closure];
     intervals := {[0]};
     next_timer := 1;
     closed := ∅;
     trace := [] |}.

(** A page that finds [ada]'s session persisted. *)
Definition returning : state :=
  {| localStorage := {[STORAGE_KEY := stored_text ada]};
     callbacks_login := [Handler 1 false; Handler 2 false];
     callbacks_logout := [];
     authPopup := None;
     listeners := [];
     intervals := ∅;
     next_timer := 0;
     closed := ∅;
     trace := [] |}.

(** A page whose persisted session is the text [undefined], which is what
    the listener stores for a success message without a [user]. *)
Definition broken : state := fresh_page {[STORAGE_KEY := "undefined"]}.

(** A page whose persisted session is the empty string. *)
Definition emptied : state := fresh_page {[STORAGE_KEY := ""]}.

(** A visit: the popup is opened and closed by hand, a success message and a
    poll tick follow; a second popup is closed by the handshake. *)
Definition visit : list action :=
  [Init VUndefined;
   Show acme desktop (Some 7);
   WindowClosed 7;
   Message from_popup;
   Poll 0;
   Show acme desktop (Some 8);
   Message from_elsewhere;
   Poll 0;
   Poll 1].

Definition with_custom_page : value :=
  VObj [("authPageUrl", VStr "https://login.example/auth.html")].

Definition login_with_callback : API.login_options :=
  {| API.serviceName := VStr "Acme";
     API.serviceUrl := VUndefined;
     API.onSuccess := Fn (Handler 5 false) |}.

End Sample.

(* ===================================================================== *)
(** * Vocabulary of the further properties *)
(* ===================================================================== *)
Module Edge.
Import JS Widget Page Obs.

(** The error [f] throws when it is called, if it throws. *)
Fixpoint raises (f : fn) : option error :=
  match f with
  | Handler id throws => if throws then Some (AppError id) else None
  | OnSuccessWrapper (Fn g) => raises g
  | OnSuccessWrapper (Val _) => Some TypeError
  end.



(** The persisted session is not the empty string. *)
Definition session_not_empty (m : gmap string string) : Prop :=
  m !! STORAGE_KEY <> Some "".

(** [a] is no tick of a poll timer. *)
Definition not_poll (a : action) : bool :=
  match a with
  | Poll _ => false
  | _ => true
  end.

(** The state [show] leaves when [window.open] answers [opened], for the
    service name and address it resolved. *)
Definition shown (name url : value) (pg : page) (opened : option nat) (st : state)
  : state :=
  {| localStorage := localStorage st;
     callbacks_login := callbacks_login st;
     callbacks_logout := callbacks_logout st;
     authPopup := opened;
     listeners := listeners st;
     intervals := match opened with
                  | Some _ => {[next_timer st]} ∪ intervals st
                  | None => intervals st
                  end;
     next_timer := match opened with
                   | Some _ => S (next_timer st)
                   | None => next_timer st
                   end;
     closed := closed st;
     trace := trace st
                ++ Open (authUrl name url) "GuahhAuth" (popup_features pg)
                :: match opened with
                   | Some w => [Focus w; SetInterval (next_timer st)]
                   | None =>
                       [ConsoleError "Popup blocked. Please allow popups for this site.";
                        Alert "Please allow popups to sign in with Guahh Account."]
                   end |}.

End Edge.

(* ===================================================================== *)
(** * [guahh-auth-api.js]: the ready gate and the helpers on the document *)
(* ===================================================================== *)
Module Layer.
Import JS Widget.

(** An element of the document, as the helpers read it. *)
Record element : Type := { tagName : string }.

(** The click listeners the layer adds: [bindLoginButton]'s
    [(e) => { e.preventDefault(); this.showLogin(options); }] and
    [bindLogoutButton]'s [(e) => { e.preventDefault(); this.logout(); }]. *)
Inductive click_handler : Type :=
| ClickShowLogin (options : API.login_options)
| ClickLogout.

(** What the layer does to the document, besides what the widget does. *)
Inductive dom_effect : Type :=
| Error (msg : string)                    (* console.error *)
| SetTextContent (id text : string)       (* element.textContent = text *)
| SetSrc (id url : string)                (* element.src = url *)
| SetBackgroundImage (id css : string)    (* element.style.backgroundImage = css *)
| AddClickListener (id : string)          (* button.addEventListener('click', _) *)
| PreventDefault (id : string)            (* e.preventDefault() *)
| RetryInit.                              (* setTimeout(initWhenReady, 50) *)

(** The layer's variables ([isReady], [readyCallbacks]), the widget's state,
    and the document: its elements by id and the click listeners added. *)
Record layer : Type := {
  core : state;
  elements : gmap string element;
  isReady : bool;
  readyCallbacks : list arg;
  click_listeners : list (string * click_handler);
  dom_trace : list dom_effect
}.

Definition set_core (st : state) (ly : layer) : layer :=
  {| core := st;
     elements := elements ly;
     isReady := isReady ly;
     readyCallbacks := readyCallbacks ly;
     click_listeners := click_listeners ly;
     dom_trace := dom_trace ly |}.

Definition set_isReady (b : bool) (ly : layer) : layer :=
  {| core := core ly;
     elements := elements ly;
     isReady := b;
     readyCallbacks := readyCallbacks ly;
     click_listeners := click_listeners ly;
     dom_trace := dom_trace ly |}.

Definition set_readyCallbacks (l : list arg) (ly : layer) : layer :=
  {| core := core ly;
     elements := elements ly;
     isReady := isReady ly;
     readyCallbacks := l;
     click_listeners := click_listeners ly;
     dom_trace := dom_trace ly |}.

Definition set_click_listeners (l : list (string * click_handler)) (ly : layer)
  : layer :=
  {| core := core ly;
     elements := elements ly;
     isReady := isReady ly;
     readyCallbacks := readyCallbacks ly;
     click_listeners := l;
     dom_trace := dom_trace ly |}.

Definition dom_emit (e : dom_effect) (ly : layer) : layer :=
  {| core := core ly;
     elements := elements ly;
     isReady := isReady ly;
     readyCallbacks := readyCallbacks ly;
     click_listeners := click_listeners ly;
     dom_trace := dom_trace ly ++ [e] |}.

(** Statements of the layer: a completion and the state they leave. *)
Definition L (A : Type) : Type := layer -> completion A * layer.

Definition lret {A} (a : A) : L A := fun ly => (Normal a, ly).
Definition lthrow {A} (e : error) : L A := fun ly => (Throw e, ly).
Definition llift {A} (c : completion A) : L A := fun ly => (c, ly).
Definition lact (f : layer -> layer) : L unit := fun ly => (Normal tt, f ly).
Definition lread {A} (f : layer -> A) : L A := fun ly => (Normal (f ly), ly).

Definition lbind {A B} (m : L A) (k : A -> L B) : L B :=
  fun ly =>
    match m ly with
    | (Normal a, ly') => k a ly'
    | (Throw e, ly') => (Throw e, ly')
    | (Unmodelled, ly') => (Unmodelled, ly')
    end.

(** A statement of the widget, run on the widget's state. *)
Definition in_core {A} (m : M A) : L A :=
  fun ly => (fst (m (core ly)), set_core (snd (m (core ly))) ly).

Notation "x <~~ m ;; k" := (lbind m (fun x => k))
  (at level 100, m at next level, right associativity).
Notation "m >>> k" := (lbind m (fun _ => k))
  (at level 100, right associativity).

(** ** The ready gate *)

(** The options the layer initialises the widget with. *)
Definition ready_options : value :=
  VObj [("authPageUrl", VStr "guahh-auth-page.html")].

(** [cb()] for a queued callback. *)
Definition call_ready (cb : arg) : L unit :=
  match cb with
  | Fn f => in_core (invoke f [])
  | Val _ => lthrow TypeError
  end.

(** [readyCallbacks.forEach(cb => cb())]. *)
Fixpoint fire_ready (cbs : list arg) : L unit :=
  match cbs with
  | [] => lret tt
  | cb :: r => call_ready cb >>> fire_ready r
  end.

(** [initWhenReady()]; [loaded] says whether [window.GuahhAuth] is defined. *)
Definition initWhenReady (loaded : bool) : L unit :=
  if loaded then
    lact (set_isReady true) >>>
    in_core (init ready_options) >>>
    cbs <~~ lread readyCallbacks ;;
    fire_ready cbs >>>
    lact (set_readyCallbacks [])
  else lact (dom_emit RetryInit).

Definition onReady (callback : arg) : L unit :=
  ready <~~ lread isReady ;;
  if ready then call_ready callback
  else lact (fun ly => set_readyCallbacks (readyCallbacks ly ++ [callback]) ly).

(** ** Helpers on the document *)

(** The text a template literal or a DOM property makes of a primitive
    value; arrays and objects are left out of this fragment. *)
Definition text_of (v : value) : completion string :=
  match v with
  | VArr _ | VObj _ => Unmodelled
  | _ => Normal (to_string v)
  end.

(** The names every object inherits from [Object.prototype]. *)
Definition inherited (name : string) : bool :=
  existsb (String.eqb name)
    ["constructor"; "hasOwnProperty"; "isPrototypeOf"; "propertyIsEnumerable";
     "toLocaleString"; "toString"; "valueOf"; "__proto__";
     "__defineGetter__"; "__defineSetter__"; "__lookupGetter__";
     "__lookupSetter__"].

(** [user[property]] for a user that is an object: its own property, or
    [undefined] for a name it neither has nor inherits.  Inherited names and
    users that are no objects are left out of this fragment. *)
Definition user_property (user : value) (property : string) : completion value :=
  match user with
  | VObj ps =>
      match lookup_prop property ps with
      | Some v => Normal v
      | None => if inherited property then Unmodelled else Normal VUndefined
      end
  | _ => Unmodelled
  end.

Definition not_found (kind id : string) : string :=
  kind +:+ " with ID " +:+ String dquote (id +:+ String dquote " not found").

(** [updateElement(elementId, property = 'displayName')]. *)
Definition updateElement (elementId : string) (property : option string) : L unit :=
  user <~~ in_core API.getCurrentUser ;;
  element <~~ lread (fun ly => elements ly !! elementId) ;;
  match element with
  | None => lact (dom_emit (Error (not_found "Element" elementId)))
  | Some el =>
      if negb (truthy user) then lact (dom_emit (SetTextContent elementId ""))
      else if String.eqb (default "displayName" property) "profilePictureUrl" then
        picture <~~ llift (get user "profilePictureUrl") ;;
        pfp <~~ (if truthy picture then llift (text_of picture)
                 else
                   username <~~ llift (get user "username") ;;
                   seed <~~ llift (text_of username) ;;
                   lret ("https://api.dicebear.com/8.x/thumbs/svg?seed=" +:+ seed)) ;;
        if String.eqb (tagName el) "IMG"
        then lact (dom_emit (SetSrc elementId pfp))
        else lact (dom_emit (SetBackgroundImage elementId ("url(" +:+ pfp +:+ ")")))
      else
        v <~~ llift (user_property user (default "displayName" property)) ;;
        text <~~ llift (text_of (or_else v (VStr ""))) ;;
        lact (dom_emit (SetTextContent elementId text))
  end.

Definition add_click (id : string) (h : click_handler) : L unit :=
  lact (fun ly =>
          dom_emit (AddClickListener id)
            (set_click_listeners (click_listeners ly ++ [(id, h)]) ly)).

(** [bindLoginButton(buttonId, options = {})]. *)
Definition bindLoginButton (buttonId : string) (options : API.login_options)
  : L unit :=
  button <~~ lread (fun ly => elements ly !! buttonId) ;;
  match button with
  | None => lact (dom_emit (Error (not_found "Button" buttonId)))
  | Some _ => add_click buttonId (ClickShowLogin options)
  end.

Definition bindLogoutButton (buttonId : string) : L unit :=
  button <~~ lread (fun ly => elements ly !! buttonId) ;;
  match button with
  | None => lact (dom_emit (Error (not_found "Button" buttonId)))
  | Some _ => add_click buttonId ClickLogout
  end.

(** What a click listener does; [pg] and [opened] are what [show] meets. *)
Definition on_click (id : string) (h : click_handler) (pg : page)
    (opened : option nat) : L unit :=
  lact (dom_emit (PreventDefault id)) >>>
  match h with
  | ClickShowLogin options => in_core (API.showLogin options pg opened)
  | ClickLogout => in_core (API.logout (Val VUndefined))
  end.

(** A click on the element [id] reaches the listeners added to it, in the
    order they were added; an error thrown by one does not stop the next.
    [window.open] is called with the one target name, and [opened] is the
    window it answers with. *)
Fixpoint dispatch_click (hs : list (string * click_handler)) (id : string)
    (pg : page) (opened : option nat) (ly : layer) : layer :=
  match hs with
  | [] => ly
  | (id', h) :: r =>
      dispatch_click r id pg opened
        (if String.eqb id id' then snd (on_click id h pg opened ly) else ly)
  end.

Definition click (id : string) (pg : page) (opened : option nat) (ly : layer)
  : layer :=
  dispatch_click (click_listeners ly) id pg opened ly.

(** ** Runs of the layer *)

(** [onReady] called with each of [cbs] in turn. *)
Definition onReady_all (cbs : list arg) (ly : layer) : layer :=
  fold_left (fun l cb => snd (onReady cb l)) cbs ly.

(** [k] attempts of [initWhenReady] that find no widget yet. *)
Definition retries (k : nat) (ly : layer) : layer :=
  Nat.iter k (fun l => snd (initWhenReady false l)) ly.

(** [bindLoginButton(id, options)] called [m] times. *)
Definition bind_times (m : nat) (id : string) (options : API.login_options)
    (ly : layer) : layer :=
  Nat.iter m (fun l => snd (bindLoginButton id options l)) ly.

(** One click on [id] for every answer of [window.open] in [opens]. *)
Definition clicks (id : string) (pg : page) (opens : list (option nat))
    (ly : layer) : layer :=
  fold_left (fun l opened => click id pg opened l) opens ly.

(** No click listener was added to [id]. *)
Definition unbound (id : string) (ly : layer) : Prop :=
  Forall (fun p => fst p <> id) (click_listeners ly).

End Layer.

(** A document for the examples of the layer. *)
Module Doc.
Import JS Widget Layer.

Definition document : gmap string element :=
  {[ "login" := {| tagName := "BUTTON" |};
     "logout" := {| tagName := "A" |};
     "avatar" := {| tagName := "IMG" |};
     "badge" := {| tagName := "DIV" |};
     "name" := {| tagName := "SPAN" |} ]}.

(** The page [st] with the layer loaded and nothing done yet. *)
Definition loaded (st : state) : layer :=
  {| core := st;
     elements := document;
     isReady := false;
     readyCallbacks := [];
     click_listeners := [];
     dom_trace := [] |}.

End Doc.

(* ===================================================================== *)
(** * Facts about [JSON.stringify] and [JSON.parse] *)
(* ===================================================================== *)
Import JS.

(** *** Appending strings *)

Lemma app_empty (r : string) : "" +:+ r = r.
Proof. reflexivity. Qed.

Lemma app_String (c : ascii) (s r : string) :
  String c s +:+ r = String c (s +:+ r).
Proof. reflexivity. Qed.

Lemma app_assoc_s (a b c : string) : (a +:+ b) +:+ c = a +:+ (b +:+ c).
Proof.
  induction a as [|x a IH]; [reflexivity|].
  rewrite !app_String. now rewrite IH.
Qed.

Lemma app_length_s (a b : string) :
  String.length (a +:+ b) = String.length a + String.length b.
Proof.
  induction a as [|x a IH]; [reflexivity|].
  rewrite app_String. simpl. now rewrite IH.
Qed.

Ltac norm_app :=
  repeat (rewrite app_assoc_s || rewrite app_String || rewrite app_empty).

(** *** Reading back a quoted string *)

Lemma parse_chars_escape_char (c : ascii) (r : string) :
  parse_chars (escape_char c +:+ r) = cons_char c (parse_chars r).
Proof.
  destruct c as [[] [] [] [] [] [] [] []]; reflexivity.
Qed.

Lemma parse_chars_escape (s rest : string) :
  parse_chars (escape s +:+ String dquote rest) = Normal (s, rest).
Proof.
  induction s as [|c s IH]; [reflexivity|].
  cbn [escape]. rewrite app_assoc_s, parse_chars_escape_char, IH.
  reflexivity.
Qed.

Lemma escape_char_length (c : ascii) : 1 <= String.length (escape_char c).
Proof.
  destruct c as [[] [] [] [] [] [] [] []]; vm_compute; lia.
Qed.

Lemma expect_hit c r : is_ws c = false -> expect c (String c r) = Some r.
Proof.
  intros H. unfold expect. cbn [skip_ws]. rewrite H.
  now rewrite Ascii.eqb_refl.
Qed.

Lemma expect_miss c d r :
  is_ws d = false -> Ascii.eqb c d = false -> expect c (String d r) = None.
Proof.
  intros H E. unfold expect. cbn [skip_ws]. now rewrite H, E.
Qed.

Lemma value_start_facts c :
  value_start c = true ->
  is_ws c = false /\ Ascii.eqb "]" c = false /\ Ascii.eqb "}" c = false.
Proof.
  destruct c as [[] [] [] [] [] [] [] []]; vm_compute; intros H;
    try discriminate H; repeat split.
Qed.

(** What the printed form of a value starts with. *)
Lemma pr_start v : exists c s, pr v = String c s /\ value_start c = true.
Proof.
  destruct v as [| |[]|s|l|ps]; unfold pr; cbn [JSON_stringify default];
    unfold quote; norm_app; eauto.
Qed.

Lemma parse_elements_print (l : list value) :
  Forall (fun v => json_clean v = true -> reads_back v) l ->
  forallb json_clean l = true ->
  l <> [] ->
  forall n acc rest,
    list_sum (List.map (fun x => S (vsize x)) l) <= n ->
    parse_elements n (join "," (List.map pr l) +:+ String "]" rest) acc
    = Normal (VArr (acc ++ l), rest).
Proof.
  induction 1 as [|v l Hv Hl IH]; [congruence|].
  intros Hc _ n acc rest Hn.
  cbn [forallb] in Hc. apply andb_prop in Hc as [Hcv Hcl].
  cbn [List.map list_sum fold_right] in Hn.
  destruct n as [|n]; [lia|].
  cbn [parse_elements].
  destruct l as [|w l].
  - cbn [List.map join]. rewrite (Hv Hcv) by lia.
    reflexivity.
  - change (join "," (List.map pr (v :: w :: l)))
      with (pr v +:+ "," +:+ join "," (List.map pr (w :: l))).
    norm_app. rewrite (Hv Hcv) by lia.
    cbn [mbind completion_bind bindc]. rewrite expect_hit by reflexivity.
    rewrite IH; [|assumption|congruence|cbn [List.map list_sum fold_right] in Hn |- *; lia].
    now rewrite <- app_assoc.
Qed.

Lemma set_prop_fresh acc k v :
  existsb (String.eqb k) (List.map fst acc) = false ->
  set_prop acc k v = acc ++ [(k, v)].
Proof.
  induction acc as [|[k' v'] acc IH]; [reflexivity|].
  cbn [List.map fst existsb set_prop]. intros H.
  apply orb_false_elim in H as [H1 H2].
  rewrite H1. cbn [app]. now rewrite IH.
Qed.

Lemma distinct_app_cons acc k (ks : list string) :
  distinct (acc ++ k :: ks) = true ->
  existsb (String.eqb k) acc = false /\ distinct ((acc ++ [k]) ++ ks) = true.
Proof.
  rewrite <- app_assoc. cbn [app]. intros H. split; [|exact H].
  induction acc as [|a acc IH]; [reflexivity|].
  cbn [app distinct] in H. apply andb_prop in H as [Ha Hd].
  cbn [existsb]. rewrite (IH Hd), orb_false_r.
  apply negb_true_iff in Ha. rewrite existsb_app in Ha.
  apply orb_false_elim in Ha as [_ Ha]. cbn [existsb] in Ha.
  apply orb_false_elim in Ha as [Ha _].
  now rewrite String.eqb_sym.
Qed.

Lemma clean_pr v : json_clean v = true -> JSON_stringify v = Some (pr v).
Proof. destruct v; try discriminate; reflexivity. Qed.

Lemma join_cons sep x (r : list string) :
  r <> [] -> join sep (x :: r) = x +:+ sep +:+ join sep r.
Proof. destruct r; [congruence|reflexivity]. Qed.

Lemma member_clean k v :
  json_clean v = true -> member (k, v) = [quote k +:+ ":" +:+ pr v].
Proof. intros H. unfold member. cbn [fst snd]. now rewrite (clean_pr _ H). Qed.

Lemma parse_members_print (l : list (string * value)) :
  Forall (fun kv => json_clean (snd kv) = true -> reads_back (snd kv)) l ->
  forallb (fun kv => json_clean (snd kv)) l = true ->
  l <> [] ->
  forall n acc rest,
    distinct (List.map fst (acc ++ l)) = true ->
    list_sum (List.map (fun kv => S (vsize (snd kv))) l) <= n ->
    parse_members n (join "," (List.flat_map member l) +:+ String "}" rest) acc
    = Normal (VObj (acc ++ l), rest).
Proof.
  induction 1 as [|[k v] l Hv Hl IH]; [congruence|].
  intros Hc _ n acc rest Hd Hn.
  cbn [forallb snd] in Hc. apply andb_prop in Hc as [Hcv Hcl].
  cbn [List.map list_sum fold_right snd] in Hn.
  rewrite List.map_app in Hd. cbn [List.map fst] in Hd.
  apply distinct_app_cons in Hd as [Hk Hd].
  destruct n as [|n]; [lia|].
  cbn [parse_members List.flat_map].
  unfold member at 1. cbn [fst snd]. rewrite (clean_pr _ Hcv). cbn [app].
  cbn [snd] in Hv.
  destruct l as [|w l].
  - cbn [List.flat_map join]. unfold quote. norm_app.
    rewrite expect_hit by reflexivity.
    rewrite parse_chars_escape. cbn [mbind completion_bind bindc].
    rewrite expect_hit by reflexivity.
    rewrite (Hv Hcv) by lia. cbn [mbind completion_bind bindc].
    rewrite expect_miss by reflexivity. rewrite expect_hit by reflexivity.
    now rewrite set_prop_fresh.
  - assert (Hne : List.flat_map member (w :: l) <> []).
    { destruct w as [k' v']. cbn [forallb snd] in Hcl.
      apply andb_prop in Hcl as [Hw _].
      cbn [List.flat_map]. rewrite (member_clean _ _ Hw). discriminate. }
    rewrite (join_cons _ _ _ Hne). unfold quote. norm_app.
    rewrite expect_hit by reflexivity.
    rewrite parse_chars_escape. cbn [mbind completion_bind bindc].
    rewrite expect_hit by reflexivity.
    rewrite (Hv Hcv) by lia. cbn [mbind completion_bind bindc].
    rewrite expect_hit by reflexivity.
    rewrite set_prop_fresh by assumption.
    rewrite IH; [|assumption|congruence| |cbn [List.map list_sum fold_right] in Hn |- *; lia].
    + now rewrite <- app_assoc.
    + rewrite !List.map_app. exact Hd.
Qed.

Lemma pr_str s : pr (VStr s) = String dquote (escape s +:+ String dquote "").
Proof. reflexivity. Qed.
Lemma pr_arr l : pr (VArr l) = String "[" (join "," (List.map pr l) +:+ "]").
Proof. reflexivity. Qed.
Lemma pr_obj ps : pr (VObj ps) = String "{" (join "," (List.flat_map member ps) +:+ "}").
Proof. reflexivity. Qed.

Lemma parse_value_quote n r :
  parse_value (S n) (String dquote r)
  = '(str, rest) ← parse_chars r; Normal (VStr str, rest).
Proof. reflexivity. Qed.

Lemma parse_value_bracket n r :
  parse_value (S n) (String "[" r)
  = match expect "]" r with
    | Some rest => Normal (VArr [], rest)
    | None => parse_elements n r []
    end.
Proof. reflexivity. Qed.

Lemma parse_value_brace n r :
  parse_value (S n) (String "{" r)
  = match expect "}" r with
    | Some rest => Normal (VObj [], rest)
    | None => parse_members n r []
    end.
Proof. reflexivity. Qed.

Lemma roundtrip_value (v : value) : json_clean v = true -> reads_back v.
Proof.
  induction v as [| |b|s|l IH|ps IH] using value_ind'; intros Hc n rest Hn;
    try discriminate Hc.
  - destruct n; [simpl in Hn; lia|]. reflexivity.
  - destruct n; [simpl in Hn; lia|]. destruct b; reflexivity.
  - destruct n; [simpl in Hn; lia|].
    rewrite pr_str. norm_app. rewrite parse_value_quote.
    now rewrite parse_chars_escape.
  - destruct n; [simpl in Hn; lia|].
    cbn [json_clean] in Hc. cbn [vsize] in Hn.
    rewrite pr_arr. norm_app. rewrite parse_value_bracket.
    destruct l as [|x l].
    + cbn [List.map join]. norm_app. now rewrite expect_hit by reflexivity.
    + destruct (pr_start x) as (c & s' & Hx & Hs).
      destruct (value_start_facts _ Hs) as (Hws & Hb & _).
      assert (E : expect "]" (join "," (List.map pr (x :: l)) +:+ String "]" rest) = None).
      { destruct l; cbn [List.map join]; rewrite Hx; norm_app;
          now apply expect_miss. }
      rewrite E.
      now rewrite (parse_elements_print (x :: l)) by (auto; lia).
  - destruct n; [simpl in Hn; lia|].
    cbn [json_clean] in Hc. apply andb_prop in Hc as [Hd Hc]. cbn [vsize] in Hn.
    rewrite pr_obj. norm_app. rewrite parse_value_brace.
    destruct ps as [|[k x] ps].
    + cbn [List.flat_map join]. norm_app. now rewrite expect_hit by reflexivity.
    + assert (E : expect "}" (join "," (List.flat_map member ((k, x) :: ps))
                               +:+ String "}" rest) = None).
      { cbn [List.flat_map]. cbn [forallb snd] in Hc.
        apply andb_prop in Hc as [Hx _]. rewrite (member_clean _ _ Hx).
        cbn [app]. destruct (List.flat_map member ps); cbn [join];
          unfold quote; norm_app; now apply expect_miss. }
      rewrite E.
      now rewrite (parse_members_print ((k, x) :: ps)) with (acc := [])
        by (auto; lia).
Qed.

Lemma app_empty_r (s : string) : s +:+ "" = s.
Proof. induction s as [|c s IH]; [reflexivity|]. now rewrite app_String, IH. Qed.

Lemma elements_length (l : list value) :
  Forall (fun v => json_clean v = true -> vsize v <= String.length (pr v)) l ->
  forallb json_clean l = true ->
  list_sum (List.map (fun x => S (vsize x)) l)
  <= S (String.length (join "," (List.map pr l))).
Proof.
  induction 1 as [|v l Hv Hl IH]; intros Hc; [simpl; lia|].
  cbn [forallb] in Hc. apply andb_prop in Hc as [Hcv Hcl].
  specialize (Hv Hcv). specialize (IH Hcl).
  cbn [List.map list_sum fold_right] in IH |- *.
  destruct l as [|w l].
  - cbn [List.map join list_sum fold_right]. lia.
  - rewrite join_cons by discriminate. rewrite !app_length_s.
    cbn [List.map list_sum fold_right String.length] in IH |- *. lia.
Qed.

Lemma quote_length k : 2 <= String.length (quote k).
Proof. unfold quote. cbn [String.length]. rewrite app_length_s. simpl. lia. Qed.

Lemma members_length (l : list (string * value)) :
  Forall (fun kv => json_clean (snd kv) = true ->
                    vsize (snd kv) <= String.length (pr (snd kv))) l ->
  forallb (fun kv => json_clean (snd kv)) l = true ->
  list_sum (List.map (fun kv => S (vsize (snd kv))) l)
  <= S (String.length (join "," (List.flat_map member l))).
Proof.
  induction 1 as [|[k v] l Hv Hl IH]; intros Hc; [simpl; lia|].
  cbn [forallb snd] in Hc, Hv. apply andb_prop in Hc as [Hcv Hcl].
  specialize (Hv Hcv). specialize (IH Hcl).
  cbn [List.flat_map]. rewrite (member_clean _ _ Hcv). cbn [app].
  pose proof (quote_length k) as Hq.
  cbn [List.map list_sum fold_right snd] in IH |- *.
  destruct (List.flat_map member l) as [|m ms] eqn:E.
  - cbn [join]. rewrite !app_length_s.
    destruct l as [|[k' v'] l].
    + cbn [List.map list_sum fold_right String.length]. lia.
    + cbn [forallb snd] in Hcl. apply andb_prop in Hcl as [Hw _].
      cbn [List.flat_map] in E. rewrite (member_clean _ _ Hw) in E. discriminate.
  - rewrite join_cons by discriminate. rewrite !app_length_s.
    cbn [String.length] in IH |- *. unfold list_sum in *. lia.
Qed.

Lemma pr_length (v : value) :
  json_clean v = true -> vsize v <= String.length (pr v).
Proof.
  induction v as [| |b|s|l IH|ps IH] using value_ind'; intros Hc;
    try discriminate Hc.
  - simpl. lia.
  - destruct b; simpl; lia.
  - rewrite pr_str. simpl. lia.
  - cbn [json_clean] in Hc. rewrite pr_arr. cbn [vsize String.length].
    rewrite app_length_s. pose proof (elements_length l IH Hc). simpl. lia.
  - cbn [json_clean] in Hc. apply andb_prop in Hc as [_ Hc].
    rewrite pr_obj. cbn [vsize String.length].
    rewrite app_length_s. pose proof (members_length ps IH Hc). simpl. lia.
Qed.

(** [JSON.parse] inverts [JSON.stringify] on clean values, and the printed
    text is never empty. *)
Lemma JSON_parse_stringify (v : value) :
  json_clean v = true ->
  exists s, JSON_stringify v = Some s /\ s <> "" /\ JSON_parse s = Normal v.
Proof.
  intros Hc. exists (pr v). split; [now apply clean_pr|]. split.
  - destruct (pr_start v) as (c & s' & -> & _). discriminate.
  - unfold JSON_parse.
    rewrite <- (app_empty_r (pr v)) at 2.
    rewrite (roundtrip_value v Hc) by (pose proof (pr_length v Hc); lia).
    reflexivity.
Qed.

(** *** The bound on nested calls is enough *)

Lemma skip_ws_length (s : string) : String.length (skip_ws s) <= String.length s.
Proof.
  induction s as [|c s IH]; [reflexivity|].
  cbn [skip_ws]. destruct (is_ws c); cbn [String.length]; lia.
Qed.

Lemma expect_shorter (c : ascii) (s r : string) :
  expect c s = Some r -> String.length r < String.length s.
Proof.
  unfold expect. pose proof (skip_ws_length s) as H.
  destruct (skip_ws s) as [|d r']; [discriminate|].
  destruct (Ascii.eqb c d); [|discriminate].
  intros [= <-]. cbn [String.length] in H. lia.
Qed.

Lemma cons_char_inv (c : ascii) (p : completion (string * string)) x rest :
  cons_char c p = Normal (x, rest) -> exists x', p = Normal (x', rest).
Proof.
  destruct p as [[x' r]|e|]; cbn; [|discriminate..].
  intros [= _ <-]. eauto.
Qed.

Lemma parse_chars_shorter (n : nat) : forall s x rest,
  String.length s <= n ->
  parse_chars s = Normal (x, rest) -> String.length rest < String.length s.
Proof.
  induction n as [|n IH]; intros [|c r] x rest Hn; try discriminate.
  { cbn in Hn. lia. }
  cbn [String.length] in Hn. cbn [parse_chars].
  destruct (Ascii.eqb c dquote).
  { intros [= _ <-]. cbn. lia. }
  destruct (Ascii.eqb c "\").
  - destruct r as [|e r1]; [discriminate|]. cbn [String.length] in *.
    destruct (unescape e).
    + intros H. apply cons_char_inv in H as [x' H].
      apply IH in H; [lia|lia].
    + destruct (Ascii.eqb e "u"); [|discriminate].
      destruct r1 as [|h1 [|h2 [|h3 [|h4 r2]]]]; try discriminate.
      destruct (hex4 h1 h2 h3 h4) as [k|]; [|discriminate].
      destruct (k <? 256)%N; [|discriminate].
      intros H. apply cons_char_inv in H as [x' H]. cbn [String.length] in *.
      apply IH in H; [lia|lia].
  - destruct (N_of_ascii c <? 32)%N; [discriminate|].
    intros H. apply cons_char_inv in H as [x' H].
    apply IH in H; [cbn [String.length]; lia|lia].
Qed.

Lemma strip_prefix_length (p : string) : forall s r,
  strip_prefix p s = Some r -> String.length s = String.length p + String.length r.
Proof.
  induction p as [|a p IH]; intros s r; cbn [strip_prefix].
  - now intros [= ->].
  - destruct s as [|b s]; [discriminate|].
    destruct (Ascii.eqb a b); [|discriminate].
    intros H. apply IH in H. cbn [String.length]. lia.
Qed.

Lemma literal_shorter word v s x rest :
  word <> "" ->
  literal word v s = Normal (x, rest) -> String.length rest < String.length s.
Proof.
  intros Hw. unfold literal.
  destruct (strip_prefix word s) as [r|] eqn:E; [|discriminate].
  intros [= _ <-]. apply strip_prefix_length in E.
  destruct word; [congruence|]. cbn [String.length] in E. lia.
Qed.

Lemma parse_shorter (n : nat) :
  (forall s, shorter s (parse_value n s)) /\
  (forall s acc, shorter s (parse_elements n s acc)) /\
  (forall s acc, shorter s (parse_members n s acc)).
Proof.
  induction n as [|n (IHv & IHe & IHm)].
  { repeat split; intros; intros v rest H; discriminate H. }
  split; [|split].
  - intros s v rest. cbn [parse_value].
    pose proof (skip_ws_length s) as Hs.
    destruct (skip_ws s) as [|c r]; [discriminate|]. cbn [String.length] in Hs.
    destruct (Ascii.eqb c dquote).
    { destruct (parse_chars r) as [[str r']|e|] eqn:E; cbn; [|discriminate..].
      intros [= _ <-]. apply (parse_chars_shorter _ _ _ _ (le_n _)) in E. lia. }
    destruct (Ascii.eqb c "[").
    { destruct (expect "]" r) as [r'|] eqn:E.
      - intros [= _ <-]. apply expect_shorter in E. lia.
      - intros H. apply IHe in H. lia. }
    destruct (Ascii.eqb c "{").
    { destruct (expect "}" r) as [r'|] eqn:E.
      - intros [= _ <-]. apply expect_shorter in E. lia.
      - intros H. apply IHm in H. lia. }
    destruct (Ascii.eqb c "t").
    { intros H. apply literal_shorter in H; [|discriminate].
      cbn [String.length] in H. lia. }
    destruct (Ascii.eqb c "f").
    { intros H. apply literal_shorter in H; [|discriminate].
      cbn [String.length] in H. lia. }
    destruct (Ascii.eqb c "n").
    { intros H. apply literal_shorter in H; [|discriminate].
      cbn [String.length] in H. lia. }
    destruct (starts_number c); discriminate.
  - intros s acc v rest. cbn [parse_elements].
    destruct (parse_value n s) as [[x r]|e|] eqn:E; cbn; [|discriminate..].
    apply IHv in E.
    destruct (expect "," r) as [r'|] eqn:E1.
    { intros H. apply IHe in H. apply expect_shorter in E1. lia. }
    destruct (expect "]" r) as [r'|] eqn:E2; [|discriminate].
    intros [= _ <-]. apply expect_shorter in E2. lia.
  - intros s acc v rest. cbn [parse_members].
    destruct (expect dquote s) as [r|] eqn:E0; [|discriminate].
    apply expect_shorter in E0.
    destruct (parse_chars r) as [[k r1]|e|] eqn:E1; cbn; [|discriminate..].
    apply (parse_chars_shorter _ _ _ _ (le_n _)) in E1.
    destruct (expect ":" r1) as [r2|] eqn:E2; [|discriminate].
    apply expect_shorter in E2.
    destruct (parse_value n r2) as [[x r3]|e|] eqn:E3; cbn; [|discriminate..].
    apply IHv in E3.
    destruct (expect "," r3) as [r'|] eqn:E4.
    { intros H. apply IHm in H. apply expect_shorter in E4. lia. }
    destruct (expect "}" r3) as [r'|] eqn:E5; [|discriminate].
    intros [= _ <-]. apply expect_shorter in E5. lia.
Qed.

(** With enough nested calls allowed, what is read does not depend on how
    many are. *)
Lemma parse_fuel (k : nat) : forall s,
  String.length s < k ->
  (forall n m, 2 * String.length s + 1 <= n -> 2 * String.length s + 1 <= m ->
               parse_value n s = parse_value m s) /\
  (forall n m acc, 2 * String.length s + 2 <= n -> 2 * String.length s + 2 <= m ->
                   parse_elements n s acc = parse_elements m s acc) /\
  (forall n m acc, 2 * String.length s + 2 <= n -> 2 * String.length s + 2 <= m ->
                   parse_members n s acc = parse_members m s acc).
Proof.
  induction k as [|k IH]; intros s Hk; [lia|].
  assert (HV : forall n m, 2 * String.length s + 1 <= n ->
                           2 * String.length s + 1 <= m ->
                           parse_value n s = parse_value m s).
  { intros [|n] [|m] Hn Hm; try lia. cbn [parse_value].
    pose proof (skip_ws_length s) as Hs.
    destruct (skip_ws s) as [|c r]; [reflexivity|]. cbn [String.length] in Hs.
    destruct (Ascii.eqb c dquote); [reflexivity|].
    destruct (Ascii.eqb c "[").
    { destruct (expect "]" r); [reflexivity|].
      apply (IH r); lia. }
    destruct (Ascii.eqb c "{"); [|reflexivity].
    destruct (expect "}" r); [reflexivity|].
    apply (IH r); lia. }
  split; [exact HV|]. split.
  - intros [|n] [|m] acc Hn Hm; try lia. cbn [parse_elements].
    rewrite (HV n m) by lia.
    destruct (parse_value m s) as [[x r]|e|] eqn:E; cbn; try reflexivity.
    apply (proj1 (parse_shorter m)) in E.
    destruct (expect "," r) as [rest|] eqn:E1; [|reflexivity].
    apply expect_shorter in E1. apply (IH rest); lia.
  - intros [|n] [|m] acc Hn Hm; try lia. cbn [parse_members].
    destruct (expect dquote s) as [r|] eqn:E0; [|reflexivity].
    apply expect_shorter in E0.
    destruct (parse_chars r) as [[key r1]|e|] eqn:E1; cbn; try reflexivity.
    apply (parse_chars_shorter _ _ _ _ (le_n _)) in E1.
    destruct (expect ":" r1) as [r2|] eqn:E2; [|reflexivity].
    apply expect_shorter in E2.
    rewrite (proj1 (IH r2 ltac:(lia)) n m) by lia.
    destruct (parse_value m r2) as [[x r3]|e|] eqn:E3; cbn; try reflexivity.
    apply (proj1 (parse_shorter m)) in E3.
    destruct (expect "," r3) as [rest|] eqn:E4; [|reflexivity].
    apply expect_shorter in E4. apply (IH rest); lia.
Qed.

(** [JSON_parse] allows enough nested calls: allowing more reads the same. *)
Lemma JSON_parse_fuel (s : string) (n : nat) :
  2 * String.length s + 1 <= n ->
  parse_value n s = parse_value (2 * String.length s + 1) s.
Proof.
  intros H. apply (proj1 (parse_fuel (S (String.length s)) s (Nat.lt_succ_diag_r _)));
    lia.
Qed.

(* ===================================================================== *)
(** * Facts about the widget *)
(* ===================================================================== *)
Import Widget Page Obs.

Ltac unfold_state :=
  unfold handshake, log, emit, set_localStorage, set_callbacks_login,
    set_callbacks_logout, set_authPopup, set_listeners, set_intervals,
    set_closed, stored_text, close_effects, close_windows in *;
  cbn [localStorage callbacks_login callbacks_logout authPopup listeners
       intervals next_timer closed trace fst snd] in *.

Lemma log_nil st : log [] st = st.
Proof. destruct st. unfold log. simpl. now rewrite app_nil_r. Qed.

Lemma log_log a b st : log b (log a st) = log (a ++ b) st.
Proof. unfold log. simpl. now rewrite <- app_assoc. Qed.

Lemma invoke_returns : forall f args st,
  returns f = true -> invoke f args st = (Normal tt, log (calls f args) st).
Proof.
  fix IH 1. intros [id throws|[g|v]] args st H; cbn [returns calls invoke] in *.
  - apply negb_true_iff in H. subst throws. reflexivity.
  - now apply IH.
  - discriminate H.
Qed.

Lemma forEach_returns cbs args : forall st,
  forallb returns cbs = true ->
  forEach cbs args st = (Normal tt, log (invocations cbs args) st).
Proof.
  induction cbs as [|f cbs IH]; intros st H.
  - cbn. now rewrite log_nil.
  - cbn [forallb] in H. apply andb_prop in H as [Hf Hr].
    cbn [forEach invocations List.flat_map]. unfold bind.
    rewrite (invoke_returns f args st Hf), (IH _ Hr), log_log.
    reflexivity.
Qed.

Lemma is_auth_success_iff d : is_auth_success d = true <-> carries_tag d.
Proof.
  unfold is_auth_success, carries_tag. split.
  - destruct d as [| |b|s|l|ps]; cbn; try discriminate;
      rewrite ?andb_false_r; try discriminate.
    destruct (lookup_prop "type" ps) as [[| | |s| |]|] eqn:E; cbn; try discriminate.
    intros H. apply String.eqb_eq in H. subst s. eauto.
  - intros (ps & -> & H). cbn. now rewrite H.
Qed.

(** A message that does not carry the tag changes nothing. *)
Lemma on_message_ignored l ev st :
  ~ carries_tag (data ev) -> on_message l ev st = (Normal tt, st).
Proof.
  intros H. unfold on_message.
  destruct (is_auth_success (data ev)) eqn:E; [|reflexivity].
  now apply is_auth_success_iff in E.
Qed.

Lemma dispatch_ignored ls ev st :
  ~ carries_tag (data ev) -> dispatch ls ev st = st.
Proof.
  intros H. induction ls as [|l ls IH]; [reflexivity|].
  cbn [dispatch]. now rewrite on_message_ignored.
Qed.

Lemma on_message_success l ev st :
  carries_tag (data ev) ->
  forallb returns (callbacks_login st) = true ->
  on_message l ev st
  = (Normal tt, handshake (field (data ev) "user") (field (data ev) "service") st).
Proof.
  intros Ht Hr. unfold on_message.
  rewrite (proj2 (is_auth_success_iff _) Ht).
  destruct Ht as (ps & Hd & _). rewrite Hd.
  unfold bind, lift, get, setUser, setItem, act, read, closeIfOpen.
  cbn [snd fst callbacks_login emit set_localStorage].
  rewrite forEach_returns by exact Hr.
  destruct st as [ls cl co [w|] li iv nt cw tr]; unfold_state;
    rewrite <- ?app_assoc, ?app_nil_r; reflexivity.
Qed.

(** ** Properties that every statement keeps *)

Lemma preserves_ret {A} P (a : A) : preserves P (ret a).
Proof. now intros st H. Qed.

Lemma preserves_throw {A} P e : preserves P (@throw A e).
Proof. now intros st H. Qed.

Lemma preserves_lift {A} P (c : completion A) : preserves P (lift c).
Proof. now intros st H. Qed.

Lemma preserves_read {A} P (f : state -> A) : preserves P (read f).
Proof. now intros st H. Qed.

Lemma preserves_act P (f : state -> state) :
  (forall st, P st -> P (f st)) -> preserves P (act f).
Proof. intros Hf st H. now apply Hf. Qed.

Lemma preserves_bind {A B} P (m : M A) (k : A -> M B) :
  preserves P m -> (forall a, preserves P (k a)) -> preserves P (bind m k).
Proof.
  intros Hm Hk st H. unfold bind. specialize (Hm st H).
  destruct (m st) as [[a|e|] st']; cbn [snd] in *; auto.
  now apply Hk.
Qed.

Create HintDb preserves.
#[local] Hint Resolve preserves_ret preserves_throw preserves_lift
  preserves_read preserves_bind : preserves.

Section StepPreserves.
Variable P : state -> Prop.
Variable admits : nat -> state -> Prop.
Hypothesis P_emit : forall e st, harmless e = true -> P st -> P (emit e st).
Hypothesis P_storage : forall m st, P st -> P (set_localStorage m st).
Hypothesis P_onLogin :
  forall f st, P st -> P (set_callbacks_login (callbacks_login st ++ [f]) st).
Hypothesis P_onLogout :
  forall f st, P st -> P (set_callbacks_logout (callbacks_logout st ++ [f]) st).
Hypothesis P_listen :
  forall l st, P st -> P (set_listeners (listeners st ++ [l]) st).
Hypothesis P_timer :
  forall st, P st ->
    P (set_intervals ({[next_timer st]} ∪ intervals st) (S (next_timer st)) st).
Hypothesis P_track :
  forall opened st,
    (forall w, opened = Some w -> admits w st) ->
    P st -> P (set_authPopup opened st).
Hypothesis admits_emit : forall e w st, admits w st -> admits w (emit e st).
Hypothesis admits_onLogin :
  forall l w st, admits w st -> admits w (set_callbacks_login l st).
Hypothesis P_close : forall st, P st -> P (snd (closeIfOpen st)).
Hypothesis P_poll : forall t st, P st -> P (poll t st).
Hypothesis P_window : forall w st, P st -> P (window_closed w st).

Lemma preserves_emit e : harmless e = true -> preserves P (act (emit e)).
Proof. intros He. apply preserves_act. intros st. now apply P_emit. Qed.

Lemma preserves_invoke : forall f args, preserves P (invoke f args).
Proof.
  fix IH 1. intros [id throws|[g|v]] args; cbn [invoke].
  - apply preserves_bind; [now apply preserves_emit|].
    intros _. destruct throws; auto with preserves.
  - apply IH.
  - auto with preserves.
Qed.

Lemma preserves_forEach cbs args : preserves P (forEach cbs args).
Proof.
  induction cbs as [|f cbs IH]; cbn [forEach]; [auto with preserves|].
  apply preserves_bind; [apply preserves_invoke|auto].
Qed.

Lemma preserves_getUser : preserves P getUser.
Proof.
  unfold getUser, getItem. apply preserves_bind; [auto with preserves|].
  intros [s|]; [|auto with preserves].
  destruct (stored_truthy (Some s)); auto with preserves.
Qed.

Lemma preserves_logout : preserves P logout.
Proof.
  unfold logout. apply preserves_bind; [apply preserves_getUser|]. intros user.
  apply preserves_bind.
  { apply preserves_act. intros st H. apply P_emit; [reflexivity|].
    now apply P_storage. }
  intros _. apply preserves_bind; [auto with preserves|].
  intros cbs. apply preserves_forEach.
Qed.

Lemma preserves_onLogin a : preserves P (onLogin a).
Proof.
  destruct a as [f|v]; cbn [onLogin]; [|auto with preserves].
  apply preserves_act. intros st. apply P_onLogin.
Qed.

Lemma preserves_onLogout a : preserves P (onLogout a).
Proof.
  destruct a as [f|v]; cbn [onLogout]; [|auto with preserves].
  apply preserves_act. intros st. apply P_onLogout.
Qed.

Lemma preserves_init options : preserves P (init options).
Proof.
  unfold init. apply preserves_bind; [auto with preserves|]. intros p.
  apply preserves_bind.
  { apply preserves_act. intros st H. apply P_emit; [reflexivity|].
    now apply P_listen. }
  intros _. apply preserves_bind; [unfold getItem; auto with preserves|].
  intros s. destruct (stored_truthy s); [|auto with preserves].
  apply preserves_bind; [auto with preserves|]. intros user.
  apply preserves_bind; [auto with preserves|]. intros cbs.
  apply preserves_forEach.
Qed.

Lemma preserves_on_message l ev : preserves P (on_message l ev).
Proof.
  unfold on_message. destruct (is_auth_success (data ev)); [|auto with preserves].
  apply preserves_bind; [auto with preserves|]. intros user.
  apply preserves_bind; [auto with preserves|]. intros service.
  apply preserves_bind.
  { apply preserves_act. intros st H. apply P_emit; [reflexivity|].
    now apply P_storage. }
  intros _. apply preserves_bind; [auto with preserves|]. intros cbs.
  apply preserves_bind; [apply preserves_forEach|].
  intros _ st. apply P_close.
Qed.

Lemma preserves_dispatch ls ev : forall st, P st -> P (dispatch ls ev st).
Proof.
  induction ls as [|l ls IH]; intros st H; [exact H|].
  cbn [dispatch]. apply IH. now apply preserves_on_message.
Qed.

Lemma preserves_open name url pg opened st :
  (forall w, opened = Some w -> admits w st) ->
  P st ->
  P (snd ((act (fun st =>
                  set_authPopup opened
                    (emit (Open (authUrl name url) "GuahhAuth"
                             (popup_features pg)) st)) ;;;
           match opened with
           | Some w => act (emit (Focus w)) ;;; setInterval
           | None =>
               act (emit (ConsoleError
                            "Popup blocked. Please allow popups for this site.")) ;;;
               act (emit (Alert
                            "Please allow popups to sign in with Guahh Account."))
           end) st)).
Proof.
  intros Hlive H. unfold bind, act, setInterval. cbn [fst snd].
  assert (H1 : P (set_authPopup opened
                    (emit (Open (authUrl name url) "GuahhAuth"
                             (popup_features pg)) st))).
  { apply P_track; [|now apply P_emit].
    intros w Hw. apply admits_emit. now apply Hlive. }
  destruct opened as [w|]; cbn [snd].
  - apply P_emit; [reflexivity|]. apply P_timer. now apply P_emit.
  - apply P_emit; [reflexivity|]. now apply P_emit.
Qed.

Lemma preserves_show serviceInfo pg opened st :
  (forall w, opened = Some w -> admits w st) ->
  P st -> P (snd (show serviceInfo pg opened st)).
Proof.
  intros Hlive H. unfold show.
  unfold bind at 1, lift at 1.
  destruct (get (or_empty_object serviceInfo) "name") as [name|e|];
    cbn [snd]; auto.
  unfold bind at 1, lift at 1.
  destruct (get (or_empty_object serviceInfo) "url") as [url|e|];
    cbn [snd]; auto.
  now apply preserves_open.
Qed.

Lemma step_preserves a st :
  (forall w, window_of a = Some w -> admits w st) -> P st -> P (step a st).
Proof.
  destruct a as [o|si pg op| | |c|c|ev|t|w|o pg op|c]; cbn [step window_of];
    intros Hlive H.
  - now apply preserves_init.
  - now apply preserves_show.
  - now apply preserves_getUser.
  - now apply preserves_logout.
  - now apply preserves_onLogin.
  - now apply preserves_onLogout.
  - now apply preserves_dispatch.
  - now apply P_poll.
  - now apply P_window.
  - unfold API.showLogin, bind.
    destruct (arg_truthy (API.onSuccess o)).
    + cbn [onLogin act]. cbn [fst snd].
      apply preserves_show.
      * intros w Hw. apply admits_onLogin. now apply Hlive.
      * now apply P_onLogin.
    + cbn [ret]. now apply preserves_show.
  - unfold API.logout. apply preserves_bind; [|intros _; apply preserves_logout|exact H].
    destruct (arg_truthy c); [apply preserves_onLogout|auto with preserves].
Qed.

End StepPreserves.

(** ** Each window is closed by one path only *)












(** ** A success message *)

Lemma handshake_settled user service st :
  authPopup st = None ->
  localStorage st !! STORAGE_KEY = Some (stored_text user) ->
  handshake user service st
  = log (handshake_block user service (callbacks_login st)) st.
Proof.
  intros Hp Hs. destruct st as [ls cl co p li iv nt cw tr].
  unfold handshake_block. unfold_state. subst p.
  rewrite (insert_id ls _ _ Hs), app_nil_r. reflexivity.
Qed.

Lemma dispatch_settled ls ev : forall st,
  carries_tag (data ev) ->
  forallb returns (callbacks_login st) = true ->
  authPopup st = None ->
  localStorage st !! STORAGE_KEY = Some (stored_text (field (data ev) "user")) ->
  dispatch ls ev st
  = log (concat (repeat (handshake_block (field (data ev) "user")
                           (field (data ev) "service") (callbacks_login st))
                   (length ls))) st.
Proof.
  induction ls as [|l ls IH]; intros st Ht Hr Hp Hs.
  - cbn. now rewrite log_nil.
  - cbn [dispatch]. rewrite on_message_success by assumption. cbn [snd].
    rewrite handshake_settled by assumption.
    rewrite IH by assumption. now rewrite log_log.
Qed.

Lemma dispatch_success l ls ev st :
  carries_tag (data ev) ->
  forallb returns (callbacks_login st) = true ->
  dispatch (l :: ls) ev st
  = log (concat (repeat (handshake_block (field (data ev) "user")
                           (field (data ev) "service") (callbacks_login st))
                   (length ls)))
      (handshake (field (data ev) "user") (field (data ev) "service") st).
Proof.
  intros Ht Hr. cbn [dispatch]. rewrite on_message_success by assumption.
  cbn [snd]. rewrite dispatch_settled; try assumption; try reflexivity.
  unfold_state. apply lookup_insert_eq.
Qed.



(** ** [forEach], [init] and the registries *)

Lemma invoke_log : forall f args st, exists es, snd (invoke f args st) = log es st.
Proof.
  fix IH 1. intros [id throws|[g|v]] args st; cbn [invoke].
  - exists [Called id args]. unfold bind, act. cbn [fst snd].
    now destruct throws.
  - apply IH.
  - exists []. cbn. now rewrite log_nil.
Qed.

Lemma forEach_log cbs args : forall st,
  exists es, snd (forEach cbs args st) = log es st.
Proof.
  induction cbs as [|f cbs IH]; intros st.
  - exists []. cbn. now rewrite log_nil.
  - cbn [forEach]. unfold bind.
    destruct (invoke_log f args st) as [es1 H1].
    destruct (invoke f args st) as [[[]|e|] st1]; cbn [snd] in *; subst st1; eauto.
    destruct (IH (log es1 st)) as [es2 H2]. rewrite H2, log_log. eauto.
Qed.

Lemma init_listens options st :
  options <> VNull ->
  exists l es,
    snd (init options st) = log es (set_listeners (listeners st ++ [l]) st).
Proof.
  intros Hn. unfold init.
  assert (exists p, get (or_empty_object options) "authPageUrl" = Normal p) as [p Hp].
  { destruct options; cbn; eauto. congruence. }
  rewrite Hp. unfold bind, lift, act, getItem, read. cbn [fst snd].
  eexists. unfold_state.
  destruct (stored_truthy _).
  - destruct (JSON_parse _) as [user|e|]; cbn [snd].
    + match goal with |- context [forEach ?c ?a ?s] =>
        destruct (forEach_log c a s) as [es Hes] end.
      rewrite Hes. exists (AddListener :: es). unfold_state.
      now rewrite <- app_assoc.
    + exists [AddListener]. reflexivity.
    + exists [AddListener]. reflexivity.
  - exists [AddListener]. reflexivity.
Qed.

(** [init] with a valid session persisted and callbacks that return. *)
Lemma init_replay options st s user :
  options <> VNull ->
  localStorage st !! STORAGE_KEY = Some s ->
  s <> "" ->
  JSON_parse s = Normal user ->
  forallb returns (callbacks_login st) = true ->
  exists l,
    init options st
    = (Normal tt,
       log (replay user (callbacks_login st))
         (set_listeners (listeners st ++ [l]) st)).
Proof.
  intros Hn Hs Hne Hu Hr. unfold init.
  assert (exists p, get (or_empty_object options) "authPageUrl" = Normal p) as [p Hp].
  { destruct options; cbn; eauto. congruence. }
  rewrite Hp. unfold bind, lift, act, getItem, read. cbn [fst snd].
  eexists. unfold_state. rewrite Hs. cbn [stored_truthy default from_option id].
  apply String.eqb_neq in Hne. rewrite Hne. cbn [negb]. rewrite Hu.
  rewrite forEach_returns by exact Hr. unfold replay. unfold_state.
  rewrite <- app_assoc. reflexivity.
Qed.

Lemma inits_replay os : forall st s user,
  Forall (fun o => o <> VNull) os ->
  localStorage st !! STORAGE_KEY = Some s ->
  s <> "" ->
  JSON_parse s = Normal user ->
  forallb returns (callbacks_login st) = true ->
  exists ls,
    length ls = length os /\
    run (List.map Init os) st
    = log (concat (repeat (replay user (callbacks_login st)) (length os)))
        (set_listeners (listeners st ++ ls) st).
Proof.
  induction os as [|o os IH]; intros st s user Hos Hs Hne Hu Hr.
  - exists []. split; [reflexivity|]. cbn. rewrite log_nil.
    destruct st. unfold_state. now rewrite app_nil_r.
  - apply Forall_cons in Hos as [Ho Hos].
    destruct (init_replay o st s user Ho Hs Hne Hu Hr) as [l Hl].
    cbn [List.map run fold_left step]. rewrite Hl. cbn [snd].
    fold (run (List.map Init os)
            (log (replay user (callbacks_login st))
               (set_listeners (listeners st ++ [l]) st))).
    destruct (IH (log (replay user (callbacks_login st))
                    (set_listeners (listeners st ++ [l]) st)) s user)
      as (ls & Hlen & Hrun); auto.
    exists (l :: ls). split; [cbn; now rewrite Hlen|].
    rewrite Hrun. unfold_state. cbn [length repeat concat].
    rewrite <- !app_assoc. reflexivity.
Qed.

(** ** What a listener's scope holds is never read *)

Lemma erase_eq s1 s2 :
  erase s1 = erase s2 <->
  localStorage s1 = localStorage s2 /\
  callbacks_login s1 = callbacks_login s2 /\
  callbacks_logout s1 = callbacks_logout s2 /\
  authPopup s1 = authPopup s2 /\
  length (listeners s1) = length (listeners s2) /\
  intervals s1 = intervals s2 /\
  next_timer s1 = next_timer s2 /\
  closed s1 = closed s2 /\
  trace s1 = trace s2.
Proof.
  destruct s1 as [a1 b1 c1 d1 l1 e1 f1 g1 h1], s2 as [a2 b2 c2 d2 l2 e2 f2 g2 h2].
  unfold erase. unfold_state. split.
  - intros H. injection H as -> -> -> -> Hl -> -> -> ->.
    repeat split. apply (f_equal (@length _)) in Hl.
    now rewrite !length_map in Hl.
  - intros (-> & -> & -> & -> & Hl & -> & -> & -> & ->). f_equal.
    revert l2 Hl. induction l1 as [|x l1 IH]; intros [|y l2] Hl;
      try discriminate Hl; [reflexivity|].
    cbn. f_equal. apply IH. now injection Hl.
Qed.

Ltac erase_fields H :=
  apply erase_eq in H;
  destruct H as (?Hls & ?Hcl & ?Hco & ?Hp & ?Hlen & ?Hiv & ?Hnt & ?Hcw & ?Htr).

Lemma sim_ret {A} (a : A) : sim (ret a).
Proof. intros s1 s2 H. now split. Qed.

Lemma sim_throw {A} e : sim (@throw A e).
Proof. intros s1 s2 H. now split. Qed.

Lemma sim_lift {A} (c : completion A) : sim (lift c).
Proof. intros s1 s2 H. now split. Qed.

Lemma sim_read {A} (f : state -> A) :
  (forall s1 s2, erase s1 = erase s2 -> f s1 = f s2) -> sim (read f).
Proof. intros Hf s1 s2 H. split; [cbn; f_equal; now apply Hf|exact H]. Qed.

Lemma sim_act (f : state -> state) :
  (forall s1 s2, erase s1 = erase s2 -> erase (f s1) = erase (f s2)) ->
  sim (act f).
Proof. intros Hf s1 s2 H. split; [reflexivity|now apply Hf]. Qed.

Lemma sim_bind {A B} (m : M A) (k : A -> M B) :
  sim m -> (forall a, sim (k a)) -> sim (bind m k).
Proof.
  intros Hm Hk s1 s2 H. unfold bind. destruct (Hm s1 s2 H) as [Hc Hs].
  destruct (m s1) as [c1 t1], (m s2) as [c2 t2]. cbn [fst snd] in *. subst c2.
  destruct c1 as [a|e|]; [now apply Hk|now split|now split].
Qed.

Create HintDb sim.
#[local] Hint Resolve sim_ret sim_throw sim_lift sim_bind : sim.

Ltac sim_fields :=
  let H := fresh "H" in
  intros ? ? H; erase_fields H; apply erase_eq; unfold_state;
  repeat split; try congruence.

Lemma sim_emit e : sim (act (emit e)).
Proof. apply sim_act. sim_fields. Qed.

Lemma sim_getItem key : sim (getItem key).
Proof. apply sim_read. intros s1 s2 H. erase_fields H. congruence. Qed.

Lemma sim_setItem key val : sim (setItem key val).
Proof. apply sim_act. sim_fields. Qed.

Lemma sim_removeItem key : sim (removeItem key).
Proof. apply sim_act. sim_fields. Qed.

#[local] Hint Resolve sim_emit sim_getItem sim_setItem sim_removeItem : sim.

Lemma sim_invoke : forall f args, sim (invoke f args).
Proof.
  fix IH 1. intros [id throws|[g|v]] args; cbn [invoke].
  - apply sim_bind; [auto with sim|]. intros _. destruct throws; auto with sim.
  - apply IH.
  - auto with sim.
Qed.

Lemma sim_forEach cbs args : sim (forEach cbs args).
Proof.
  induction cbs as [|f cbs IH]; cbn [forEach]; [auto with sim|].
  apply sim_bind; [apply sim_invoke|auto].
Qed.

Lemma sim_login_callbacks : sim (read callbacks_login).
Proof. apply sim_read. intros s1 s2 H. erase_fields H. congruence. Qed.

Lemma sim_logout_callbacks : sim (read callbacks_logout).
Proof. apply sim_read. intros s1 s2 H. erase_fields H. congruence. Qed.

#[local] Hint Resolve sim_forEach sim_login_callbacks sim_logout_callbacks : sim.

Lemma sim_getUser : sim getUser.
Proof.
  unfold getUser. apply sim_bind; [auto with sim|].
  intros [s|]; [|auto with sim]. destruct (stored_truthy (Some s)); auto with sim.
Qed.

Lemma sim_logout : sim logout.
Proof.
  unfold logout. apply sim_bind; [apply sim_getUser|]. intros user.
  apply sim_bind; [auto with sim|]. intros _.
  apply sim_bind; auto with sim.
Qed.

Lemma sim_onLogin a : sim (onLogin a).
Proof.
  destruct a as [f|v]; cbn [onLogin]; [|auto with sim].
  apply sim_act. sim_fields.
Qed.

Lemma sim_onLogout a : sim (onLogout a).
Proof.
  destruct a as [f|v]; cbn [onLogout]; [|auto with sim].
  apply sim_act. sim_fields.
Qed.

Lemma sim_closeIfOpen : sim closeIfOpen.
Proof.
  intros s1 s2 H. unfold closeIfOpen. pose proof H as H'. erase_fields H'.
  rewrite <- Hp. destruct (authPopup s1) as [w|]; cbn [fst snd]; [|now split].
  split; [reflexivity|]. apply erase_eq. unfold_state. repeat split; congruence.
Qed.

Lemma sim_init_replays : sim init_replays.
Proof.
  unfold init_replays. apply sim_bind; [auto with sim|]. intros s.
  destruct (stored_truthy s); [|auto with sim].
  apply sim_bind; [auto with sim|]. intros user.
  apply sim_bind; auto with sim.
Qed.

Lemma sim_add_listener l1 l2 s1 s2 :
  erase s1 = erase s2 ->
  erase (emit AddListener (set_listeners (listeners s1 ++ [l1]) s1))
  = erase (emit AddListener (set_listeners (listeners s2 ++ [l2]) s2)).
Proof.
  intros H. erase_fields H. apply erase_eq. unfold_state.
  repeat split; try congruence. rewrite !length_app. cbn. congruence.
Qed.

(** Two calls of [init], whatever their options, leave states that differ
    in the scope of the new listener only. *)
Lemma init_sim o1 o2 s1 s2 :
  o1 <> VNull -> o2 <> VNull -> erase s1 = erase s2 ->
  fst (init o1 s1) = fst (init o2 s2) /\
  erase (snd (init o1 s1)) = erase (snd (init o2 s2)).
Proof.
  intros H1 H2 H. unfold init.
  assert (exists p, get (or_empty_object o1) "authPageUrl" = Normal p) as [p1 Hp1].
  { destruct o1; cbn; eauto. congruence. }
  assert (exists p, get (or_empty_object o2) "authPageUrl" = Normal p) as [p2 Hp2].
  { destruct o2; cbn; eauto. congruence. }
  rewrite Hp1, Hp2. unfold bind at 1 3, lift. cbn iota beta.
  unfold bind at 1 3, act. cbn iota beta.
  apply sim_init_replays. now apply sim_add_listener.
Qed.

Lemma sim_on_message l ev : sim (on_message l ev).
Proof.
  unfold on_message. destruct (is_auth_success (data ev)); [|auto with sim].
  apply sim_bind; [auto with sim|]. intros user.
  apply sim_bind; [auto with sim|]. intros service.
  apply sim_bind; [unfold setUser; auto with sim|]. intros _.
  apply sim_bind; [auto with sim|]. intros cbs.
  apply sim_bind; [auto with sim|]. intros _. apply sim_closeIfOpen.
Qed.

Lemma dispatch_sim ev ls1 : forall ls2 s1 s2,
  length ls1 = length ls2 -> erase s1 = erase s2 ->
  erase (dispatch ls1 ev s1) = erase (dispatch ls2 ev s2).
Proof.
  induction ls1 as [|l1 ls1 IH]; intros [|l2 ls2] s1 s2 Hl H;
    try discriminate Hl; [exact H|].
  cbn [dispatch]. apply IH; [now injection Hl|].
  change (on_message l2 ev s2) with (on_message l1 ev s2).
  now apply sim_on_message.
Qed.

Lemma sim_setInterval : sim setInterval.
Proof. apply sim_act. sim_fields. Qed.

Lemma sim_show serviceInfo pg opened : sim (show serviceInfo pg opened).
Proof.
  unfold show. apply sim_bind; [auto with sim|]. intros name.
  apply sim_bind; [auto with sim|]. intros url.
  apply sim_bind; [apply sim_act; sim_fields|]. intros _.
  destruct opened as [w|]; apply sim_bind; auto with sim.
  intros _. apply sim_setInterval.
Qed.

Lemma poll_sim t s1 s2 : erase s1 = erase s2 -> erase (poll t s1) = erase (poll t s2).
Proof.
  intros H. pose proof H as H'. erase_fields H'. unfold poll.
  rewrite <- Hiv, <- Hp, <- Hcw. case_bool_decide; [|exact H].
  destruct (authPopup s1) as [w|]; [|exact H].
  case_bool_decide; [|exact H].
  apply erase_eq. unfold_state. repeat split; congruence.
Qed.

Lemma step_sim a s1 s2 : erase s1 = erase s2 -> erase (step a s1) = erase (step a s2).
Proof.
  intros H.
  destruct a as [o|si pg op| | |c|c|ev|t|w|o pg op|c]; cbn [step].
  - destruct o.
    all: try (apply init_sim; [discriminate|discriminate|exact H]).
    now apply (sim_bind (lift (get (or_empty_object VNull) "authPageUrl"))
                 (fun _ => ret tt) (sim_lift _) (fun _ => sim_ret tt)).
  - now apply sim_show.
  - now apply sim_getUser.
  - now apply sim_logout.
  - now apply sim_onLogin.
  - now apply sim_onLogout.
  - pose proof H as H'. erase_fields H'. now apply dispatch_sim.
  - now apply poll_sim.
  - erase_fields H. apply erase_eq. unfold window_closed. unfold_state.
    repeat split; congruence.
  - apply (sim_bind _ _); [|intros _; apply sim_show|exact H].
    destruct (arg_truthy (API.onSuccess o)); [apply sim_onLogin|auto with sim].
  - apply (sim_bind _ _); [|intros _; apply sim_logout|exact H].
    destruct (arg_truthy c); [apply sim_onLogout|auto with sim].
Qed.

Lemma run_sim acts : forall s1 s2,
  erase s1 = erase s2 -> erase (run acts s1) = erase (run acts s2).
Proof.
  induction acts as [|a acts IH]; intros s1 s2 H; [exact H|].
  cbn [run fold_left]. apply IH. now apply step_sim.
Qed.

(** ** The registries only grow *)

Lemma invocations_app a b args :
  invocations (a ++ b) args = invocations a args ++ invocations b args.
Proof. unfold invocations. apply List.flat_map_app. Qed.

Lemma invocations_repeat f n args :
  invocations (repeat f n) args = concat (repeat (calls f args) n).
Proof.
  induction n as [|n IH]; [reflexivity|].
  cbn [repeat concat]. rewrite <- IH. reflexivity.
Qed.

Lemma invocations_handlers ids args :
  invocations (List.map (fun id => Handler id false) ids) args
  = List.map (fun id => Called id args) ids.
Proof.
  induction ids as [|id ids IH]; [reflexivity|].
  cbn [List.map]. unfold invocations in *. cbn [List.flat_map calls app].
  now rewrite IH.
Qed.

Lemma forallb_returns_app a b :
  forallb returns (a ++ b) = forallb returns a && forallb returns b.
Proof. apply forallb_app. Qed.

Lemma show_keeps_login serviceInfo pg opened st :
  callbacks_login (snd (show serviceInfo pg opened st)) = callbacks_login st.
Proof.
  now apply (preserves_show (fun s => callbacks_login s = callbacks_login st)
               (fun _ _ => True)).
Qed.

Lemma dispatch_keeps_login ls ev st :
  callbacks_login (dispatch ls ev st) = callbacks_login st.
Proof.
  apply (preserves_dispatch (fun s => callbacks_login s = callbacks_login st));
    auto.
  intros s H. unfold closeIfOpen. now destruct (authPopup s).
Qed.

Lemma logout_keeps_logout st :
  callbacks_logout (snd (logout st)) = callbacks_logout st.
Proof.
  now apply (preserves_logout (fun s => callbacks_logout s = callbacks_logout st)).
Qed.

Lemma showLogin_registers o pg opened st :
  arg_truthy (API.onSuccess o) = true ->
  callbacks_login (step (ShowLogin o pg opened) st)
  = callbacks_login st ++ [OnSuccessWrapper (API.onSuccess o)].
Proof.
  intros H. cbn [step]. unfold API.showLogin, bind. rewrite H.
  cbn [onLogin act]. cbn iota beta. now rewrite show_keeps_login.
Qed.

Lemma showLogins_register o pg ops : forall st,
  arg_truthy (API.onSuccess o) = true ->
  callbacks_login (run (List.map (ShowLogin o pg) ops) st)
  = callbacks_login st ++ repeat (OnSuccessWrapper (API.onSuccess o)) (length ops).
Proof.
  induction ops as [|op ops IH]; intros st H.
  - cbn. now rewrite app_nil_r.
  - cbn [List.map run fold_left].
    fold (run (List.map (ShowLogin o pg) ops) (step (ShowLogin o pg op) st)).
    rewrite IH by exact H. rewrite showLogin_registers by exact H.
    rewrite <- app_assoc. reflexivity.
Qed.

Lemma apiLogout_registers f st :
  callbacks_logout (step (ApiLogout (Fn f)) st) = callbacks_logout st ++ [f].
Proof.
  cbn [step]. unfold API.logout, bind. cbn [arg_truthy onLogout act].
  cbn iota beta. now rewrite logout_keeps_logout.
Qed.

(** A property of the two registries that survives an added callback
    survives every action. *)
Lemma registries_step (Q : list fn -> list fn -> Prop) a st :
  (forall f l o, Q l o -> Q (l ++ [f]) o) ->
  (forall f l o, Q l o -> Q l (o ++ [f])) ->
  Q (callbacks_login st) (callbacks_logout st) ->
  Q (callbacks_login (step a st)) (callbacks_logout (step a st)).
Proof.
  intros Hin Hout.
  apply (step_preserves (fun s => Q (callbacks_login s) (callbacks_logout s))
           (fun _ _ => True)); auto.
  - intros f s. apply Hin.
  - intros f s. apply Hout.
  - intros s H. unfold closeIfOpen. now destruct (authPopup s).
  - intros t s H. unfold poll. case_bool_decide; [|exact H].
    destruct (authPopup s); [|exact H]. now case_bool_decide.
Qed.

Lemma login_extends_step base a st :
  login_extends base st -> login_extends base (step a st).
Proof.
  apply (registries_step (fun l _ => exists more, l = base ++ more)); auto.
  intros f l _ [more H]. exists (more ++ [f]). now rewrite H, <- app_assoc.
Qed.

Lemma logout_extends_step base a st :
  logout_extends base st -> logout_extends base (step a st).
Proof.
  apply (registries_step (fun _ o => exists more, o = base ++ more)); auto.
  intros f _ o [more H]. exists (more ++ [f]). now rewrite H, <- app_assoc.
Qed.

Lemma registries_grow acts : forall st,
  login_extends (callbacks_login st) (run acts st) /\
  logout_extends (callbacks_logout st) (run acts st).
Proof.
  assert (H : forall b1 b2 st, login_extends b1 st -> logout_extends b2 st ->
                login_extends b1 (run acts st) /\ logout_extends b2 (run acts st)).
  { induction acts as [|a acts IH]; intros b1 b2 st H1 H2; [now split|].
    cbn [run fold_left]. apply IH.
    - now apply login_extends_step.
    - now apply logout_extends_step. }
  intros st. apply H; exists []; now rewrite app_nil_r.
Qed.

(** ** The popup's address *)

Lemma show_opens serviceInfo pg opened st :
  serviceInfo <> VNull ->
  exists query rest,
    trace (snd (show serviceInfo pg opened st))
    = trace st ++ Open ("guahh-auth-page.html?" +:+ query) "GuahhAuth"
                    (popup_features pg) :: rest.
Proof.
  intros Hn. unfold show.
  assert (forall k, exists p, get (or_empty_object serviceInfo) k = Normal p) as Hg.
  { intros k. destruct serviceInfo; cbn; eauto. congruence. }
  destruct (Hg "name") as [name ->], (Hg "url") as [url ->].
  unfold setInterval, bind, lift, act. cbn iota beta.
  eexists. destruct opened as [w|]; unfold_state; eexists;
    rewrite <- !app_assoc; cbn [app]; reflexivity.
Qed.

Lemma trace_erase st : trace (erase st) = trace st.
Proof. reflexivity. Qed.

(** ** The session store *)

Lemma well_formed_clean u : well_formed_user u = true -> json_clean u = true.
Proof.
  destruct u as [| |b|s|l|ps]; try discriminate. unfold well_formed_user.
  intros H. do 6 (apply andb_prop in H as [H _]). exact H.
Qed.

Lemma stored_text_clean u :
  json_clean u = true ->
  stored_text u <> "" /\ JSON_parse (stored_text u) = Normal u.
Proof.
  intros H. destruct (JSON_parse_stringify u H) as (s & Hs & Hne & Hp).
  unfold stored_text. rewrite Hs. now split.
Qed.

Lemma getUser_stored st s :
  localStorage st !! STORAGE_KEY = Some s ->
  s <> "" ->
  getUser st = (JSON_parse s, st).
Proof.
  intros Hs Hne. unfold getUser, bind, getItem, read, lift. rewrite Hs.
  cbn [stored_truthy]. apply String.eqb_neq in Hne. now rewrite Hne.
Qed.

Lemma getUser_absent st :
  localStorage st !! STORAGE_KEY = None -> getUser st = (Normal VNull, st).
Proof. intros Hs. unfold getUser, bind, getItem, read. now rewrite Hs. Qed.

Lemma getUser_after_setUser u st :
  json_clean u = true ->
  getUser (snd (setUser u st)) = (Normal u, snd (setUser u st)).
Proof.
  intros H. destruct (stored_text_clean u H) as [Hne Hp].
  rewrite (getUser_stored _ (stored_text u)); [now rewrite Hp| |exact Hne].
  unfold setUser, setItem, act. unfold_state. apply lookup_insert_eq.
Qed.

Lemma logout_notifies st user :
  fst (getUser st) = Normal user ->
  forallb returns (callbacks_logout st) = true ->
  logout st
  = (Normal tt,
     log (RemoveItem STORAGE_KEY :: invocations (callbacks_logout st) [user])
       (set_localStorage (delete STORAGE_KEY (localStorage st)) st)).
Proof.
  intros Hu Hr. unfold logout, bind.
  assert (Hs : snd (getUser st) = st).
  { unfold getUser, bind, getItem, read, lift.
    destruct (localStorage st !! STORAGE_KEY) as [s|]; [|reflexivity].
    now destruct (stored_truthy (Some s)). }
  destruct (getUser st) as [c st1]. cbn [fst snd] in *. subst c st1.
  unfold removeItem, act, read. cbn iota beta.
  rewrite forEach_returns by exact Hr. unfold_state.
  now rewrite <- app_assoc.
Qed.

(* ===================================================================== *)
(** * The properties *)
(* ===================================================================== *)

(** C1: the message listener never reads where a message comes from: two
    events with the same payload have the same outcome, whatever their
    origin and source.  For a payload that carries the success tag, with
    login callbacks that return, the listener stores the message's user,
    then calls the login callbacks in registration order with the user and
    the service, then closes the tracked popup and forgets it. *)
Theorem handshake_ignores_sender (l : listener) (ev1 ev2 : event) (st : state) :
  data ev1 = data ev2 ->
  on_message l ev1 st = on_message l ev2 st /\
  (carries_tag (data ev1) ->
   forallb returns (callbacks_login st) = true ->
   let user := field (data ev1) "user" in
   let service := field (data ev1) "service" in
   exists st',
     on_message l ev1 st = (Normal tt, st') /\
     localStorage st' = <[STORAGE_KEY := stored_text user]> (localStorage st) /\
     trace st' = trace st ++ [SetItem STORAGE_KEY (stored_text user)]
                   ++ invocations (callbacks_login st) [user; service]
                   ++ close_effects (authPopup st) /\
     authPopup st' = None /\
     closed st' = close_windows (authPopup st) (closed st)).
Proof.
  intros Hd. split.
  - unfold on_message. now rewrite Hd.
  - intros Ht Hr user service. eexists. split.
    + now apply on_message_success.
    + repeat split.
Qed.

Lemma handshake_ignores_sender_witness :
  data Sample.from_popup = data Sample.from_elsewhere /\
  on_message Sample.closure Sample.from_popup Sample.waiting
  = on_message Sample.closure Sample.from_elsewhere Sample.waiting /\
  trace (snd (on_message Sample.closure Sample.from_elsewhere Sample.waiting))
  = [SetItem STORAGE_KEY (stored_text Sample.ada);
     Called 1 [Sample.ada; Sample.acme];
     Called 2 [Sample.ada; Sample.acme];
     Close 7].
Proof.
  split; [reflexivity|].
  split.
  - apply (handshake_ignores_sender Sample.closure Sample.from_popup
             Sample.from_elsewhere Sample.waiting).
    reflexivity.
  - vm_compute. reflexivity.
Defined.

(** C2: when [init] finds a session persisted, it calls the login callbacks
    registered so far, in registration order, with the cached user and
    [{serviceName: "Cached Session"}]; a callback registered after [init]
    has returned joins the registry and is not called for that replay. *)
Theorem replay_reaches_earlier_callbacks
    (options : value) (st : state) (s : string) (user : value) (g : fn) :
  options <> VNull ->
  localStorage st !! STORAGE_KEY = Some s ->
  s <> "" ->
  JSON_parse s = Normal user ->
  forallb returns (callbacks_login st) = true ->
  exists st',
    init options st = (Normal tt, st') /\
    trace st' = trace st ++ AddListener
                  :: invocations (callbacks_login st) [user; CACHED_SESSION] /\
    callbacks_login (step (OnLogin (Fn g)) st') = callbacks_login st ++ [g] /\
    trace (step (OnLogin (Fn g)) st') = trace st'.
Proof.
  intros Hn Hs Hne Hu Hr.
  destruct (init_replay options st s user Hn Hs Hne Hu Hr) as [l Hl].
  eexists. split; [exact Hl|]. repeat split.
Qed.

Lemma replay_reaches_earlier_callbacks_witness :
  exists st',
    init VUndefined Sample.returning = (Normal tt, st') /\
    trace st' = trace Sample.returning ++ AddListener
                  :: invocations (callbacks_login Sample.returning)
                       [Sample.ada; CACHED_SESSION] /\
    callbacks_login (step (OnLogin (Fn (Handler 9 false))) st')
    = callbacks_login Sample.returning ++ [Handler 9 false] /\
    trace (step (OnLogin (Fn (Handler 9 false))) st') = trace st'.
Proof.
  apply (replay_reaches_earlier_callbacks VUndefined Sample.returning
           (stored_text Sample.ada) Sample.ada (Handler 9 false)).
  - discriminate.
  - reflexivity.
  - vm_compute. discriminate.
  - vm_compute. reflexivity.
  - reflexivity.
Defined.

(** C3: after [setUser(u)] for a well-formed [u], [logout] with logout
    callbacks that return leaves no user ([getUser] answers [null]) and has
    called every logout callback once, in registration order, with [u];
    with no session persisted the callbacks are called with [null]. *)
Theorem logout_clears_and_notifies (u : value) (st : state) :
  well_formed_user u = true ->
  forallb returns (callbacks_logout st) = true ->
  (exists st2,
     logout (snd (setUser u st)) = (Normal tt, st2) /\
     getUser st2 = (Normal VNull, st2) /\
     trace st2 = trace (snd (setUser u st))
                   ++ RemoveItem STORAGE_KEY
                   :: invocations (callbacks_logout st) [u]) /\
  (localStorage st !! STORAGE_KEY = None ->
   exists st2,
     logout st = (Normal tt, st2) /\
     getUser st2 = (Normal VNull, st2) /\
     trace st2 = trace st ++ RemoveItem STORAGE_KEY
                   :: invocations (callbacks_logout st) [VNull]).
Proof.
  intros Hw Hr. apply well_formed_clean in Hw. split.
  - eexists. split.
    + apply logout_notifies; [|exact Hr].
      now rewrite (getUser_after_setUser u st Hw).
    + split; [|reflexivity].
      apply getUser_absent. unfold_state. apply lookup_delete_eq.
  - intros Hs. eexists. split.
    + apply logout_notifies; [|exact Hr]. now rewrite (getUser_absent st Hs).
    + split; [|reflexivity].
      apply getUser_absent. unfold_state. apply lookup_delete_eq.
Qed.

Lemma logout_clears_and_notifies_witness :
  exists st2,
    logout (snd (setUser Sample.ada Sample.waiting)) = (Normal tt, st2) /\
    getUser st2 = (Normal VNull, st2) /\
    trace st2 = trace (snd (setUser Sample.ada Sample.waiting))
                  ++ RemoveItem STORAGE_KEY
                  :: invocations (callbacks_logout Sample.waiting) [Sample.ada].
Proof.
  apply (logout_clears_and_notifies Sample.ada Sample.waiting); reflexivity.
Defined.

(** C4, as the code has it: a persisted value that is a non-empty string and
    is not valid JSON makes [getUser] and [init] throw a [SyntaxError]; a
    persisted empty string is taken for no session, by [getUser] and by
    [init] alike. *)
Theorem malformed_session_throws (st : state) (s : string) :
  localStorage st !! STORAGE_KEY = Some s ->
  (s <> "" -> JSON_parse s = Throw SyntaxError ->
   fst (getUser st) = Throw SyntaxError /\
   forall options, options <> VNull -> fst (init options st) = Throw SyntaxError) /\
  (s = "" ->
   getUser st = (Normal VNull, st) /\
   forall options, options <> VNull ->
     fst (init options st) = Normal tt /\
     trace (snd (init options st)) = trace st ++ [AddListener]).
Proof.
  intros Hs. split.
  - intros Hne Hp. split.
    + now rewrite (getUser_stored st s Hs Hne), Hp.
    + intros options Hn. unfold init.
      assert (exists p, get (or_empty_object options) "authPageUrl" = Normal p)
        as [p Hg].
      { destruct options; cbn; eauto. congruence. }
      rewrite Hg. unfold bind, lift, act, getItem, read. cbn iota beta.
      unfold_state. rewrite Hs. cbn [stored_truthy default from_option id].
      apply String.eqb_neq in Hne. rewrite Hne. cbn [negb]. now rewrite Hp.
  - intros ->. split.
    + unfold getUser, bind, getItem, read. now rewrite Hs.
    + intros options Hn. unfold init.
      assert (exists p, get (or_empty_object options) "authPageUrl" = Normal p)
        as [p Hg].
      { destruct options; cbn; eauto. congruence. }
      rewrite Hg. unfold bind, lift, act, getItem, read. cbn iota beta.
      unfold_state. rewrite Hs. now split.
Qed.

Lemma malformed_session_throws_witness :
  fst (getUser Sample.broken) = Throw SyntaxError /\
  fst (init VUndefined Sample.broken) = Throw SyntaxError.
Proof.
  destruct (malformed_session_throws Sample.broken "undefined") as [H _].
  - reflexivity.
  - destruct H as [H1 H2].
    + discriminate.
    + vm_compute. reflexivity.
    + split; [exact H1|]. apply H2. discriminate.
Defined.

(** C4 as the claim states it fails: the empty string is present in the
    store and is not valid JSON, and [getUser] and [init] answer as if no
    session were persisted. *)
Lemma empty_session_is_no_session :
  localStorage Sample.emptied !! STORAGE_KEY = Some "" /\
  JSON_parse "" = Throw SyntaxError /\
  fst (getUser Sample.emptied) = Normal VNull /\
  fst (init VUndefined Sample.emptied) = Normal tt.
Proof. repeat split. Qed.

(** C5: a message whose payload does not carry the success tag, whatever its
    shape, leaves the whole state as it is: the session, the trace (so no
    callback is called and nothing is logged) and the tracked popup.  Each
    listener returns normally. *)
Theorem other_messages_ignored (ev : event) (st : state) :
  ~ carries_tag (data ev) ->
  message ev st = st /\
  forall l, on_message l ev st = (Normal tt, st).
Proof.
  intros H. split.
  - now apply dispatch_ignored.
  - intros l. now apply on_message_ignored.
Qed.

Lemma other_messages_ignored_witness :
  message Sample.other_message Sample.waiting = Sample.waiting /\
  forall l, on_message l Sample.other_message Sample.waiting
            = (Normal tt, Sample.waiting).
Proof.
  apply (other_messages_ignored Sample.other_message Sample.waiting).
  intros (ps & Hd & Ht). injection Hd as <-. discriminate Ht.
Defined.



(** C7: [getUser] after [setUser(u)] answers [u], for every well-formed
    UserRecord [u]: the text stored is read back as the value stored. *)
Theorem session_roundtrip (u : value) (st : state) :
  well_formed_user u = true ->
  getUser (snd (setUser u st)) = (Normal u, snd (setUser u st)).
Proof. intros H. apply getUser_after_setUser. now apply well_formed_clean. Qed.

Lemma session_roundtrip_witness :
  getUser (snd (setUser Sample.ada Sample.waiting))
  = (Normal Sample.ada, snd (setUser Sample.ada Sample.waiting)).
Proof. apply (session_roundtrip Sample.ada Sample.waiting). reflexivity. Defined.

(** C8: two calls of [init] with any two option objects complete alike and
    leave states that differ in nothing but the [authPageUrl] held in the new
    listener's scope, and so do all runs from them: same session, same
    registries, same popup, same trace.  In particular a later [show] opens
    the same address in both, and that address starts with the constant
    [guahh-auth-page.html]. *)
Theorem authPageUrl_ignored (o1 o2 : value) (acts : list action) (st : state) :
  o1 <> VNull -> o2 <> VNull ->
  fst (init o1 st) = fst (init o2 st) /\
  erase (run acts (step (Init o1) st)) = erase (run acts (step (Init o2) st)) /\
  trace (run acts (step (Init o1) st)) = trace (run acts (step (Init o2) st)) /\
  forall serviceInfo pg opened,
    trace (step (Show serviceInfo pg opened) (run acts (step (Init o1) st)))
    = trace (step (Show serviceInfo pg opened) (run acts (step (Init o2) st))) /\
    (serviceInfo <> VNull ->
     exists query rest,
       trace (step (Show serviceInfo pg opened) (run acts (step (Init o1) st)))
       = trace (run acts (step (Init o1) st))
           ++ Open ("guahh-auth-page.html?" +:+ query) "GuahhAuth"
                (popup_features pg) :: rest).
Proof.
  intros H1 H2.
  destruct (init_sim o1 o2 st st H1 H2 eq_refl) as [Hc Hs].
  assert (He : erase (run acts (step (Init o1) st))
               = erase (run acts (step (Init o2) st))).
  { now apply run_sim. }
  split; [exact Hc|]. split; [exact He|]. split.
  - now rewrite <- trace_erase, He.
  - intros serviceInfo pg opened. split.
    + rewrite <- trace_erase. symmetry. rewrite <- trace_erase. symmetry.
      f_equal. now apply step_sim.
    + intros Hn. now apply show_opens.
Qed.

Lemma authPageUrl_ignored_witness :
  trace (step (Show Sample.acme Sample.desktop (Some 7))
           (run [OnLogin (Fn (Handler 1 false))]
              (step (Init Sample.with_custom_page) (fresh_page ∅))))
  = trace (step (Show Sample.acme Sample.desktop (Some 7))
             (run [OnLogin (Fn (Handler 1 false))]
                (step (Init VUndefined) (fresh_page ∅)))).
Proof.
  apply (authPageUrl_ignored Sample.with_custom_page VUndefined
           [OnLogin (Fn (Handler 1 false))] (fresh_page ∅)); discriminate.
Defined.

Lemma inits_listen os : forall st,
  Forall (fun o => o <> VNull) os ->
  exists ls es,
    length ls = length os /\
    run (List.map Init os) st = log es (set_listeners (listeners st ++ ls) st).
Proof.
  induction os as [|o os IH]; intros st Hos.
  - exists [], []. split; [reflexivity|]. cbn. rewrite log_nil.
    destruct st. unfold_state. now rewrite app_nil_r.
  - apply Forall_cons in Hos as [Ho Hos].
    destruct (init_listens o st Ho) as (l & es & Hl).
    cbn [List.map run fold_left step]. rewrite Hl.
    fold (run (List.map Init os)
            (log es (set_listeners (listeners st ++ [l]) st))).
    destruct (IH (log es (set_listeners (listeners st ++ [l]) st)) Hos)
      as (ls & es' & Hlen & Hrun).
    exists (l :: ls), (es ++ es'). split; [cbn; now rewrite Hlen|].
    rewrite Hrun. unfold_state. rewrite <- !app_assoc. reflexivity.
Qed.

(** C9: [init] has no once-only guard.  Every call with an options object
    adds a listener.  After [k] calls (on a page that had no listener), one
    success message is handled [k] times: the user is stored and the login
    callbacks are called [k] times over, and the popup is closed by the
    first listener.  With a session persisted, every one of the [k] calls
    replays it to the callbacks registered then. *)
Theorem init_not_once_only (os : list value) (ev : event) (st : state) :
  Forall (fun o => o <> VNull) os ->
  listeners st = [] ->
  forallb returns (callbacks_login st) = true ->
  length (listeners (run (List.map Init os) st)) = length os /\
  (carries_tag (data ev) ->
   trace (message ev (run (List.map Init os) st))
   = trace (run (List.map Init os) st)
       ++ handshake_trace (length os) (authPopup st)
            (handshake_block (field (data ev) "user") (field (data ev) "service")
               (callbacks_login st))) /\
  (forall s user,
     localStorage st !! STORAGE_KEY = Some s ->
     s <> "" ->
     JSON_parse s = Normal user ->
     trace (run (List.map Init os) st)
     = trace st ++ concat (repeat (replay user (callbacks_login st)) (length os))).
Proof.
  intros Hos Hl Hr. split; [|split].
  - destruct (inits_listen os st Hos) as (ls & es & Hlen & Hrun).
    rewrite Hrun. unfold_state. now rewrite Hl.
  - intros Ht. destruct (inits_listen os st Hos) as (ls & es & Hlen & Hrun).
    rewrite Hrun, <- Hlen. unfold message. unfold_state. rewrite Hl. cbn [app].
    destruct ls as [|l ls]; [cbn; now rewrite app_nil_r|].
    rewrite dispatch_success by assumption.
    unfold handshake_block. unfold_state. cbn [length handshake_trace].
    rewrite <- !app_assoc. reflexivity.
  - intros s user Hs Hne Hu.
    destruct (inits_replay os st s user Hos Hs Hne Hu Hr) as (ls & _ & Hrun).
    now rewrite Hrun.
Qed.

Lemma init_not_once_only_witness :
  trace (message Sample.from_popup
           (run (List.map Init [VUndefined; Sample.with_custom_page; VObj []])
              (set_listeners [] Sample.waiting)))
  = trace (run (List.map Init [VUndefined; Sample.with_custom_page; VObj []])
             (set_listeners [] Sample.waiting))
      ++ [SetItem STORAGE_KEY (stored_text Sample.ada);
          Called 1 [Sample.ada; Sample.acme];
          Called 2 [Sample.ada; Sample.acme];
          Close 7;
          SetItem STORAGE_KEY (stored_text Sample.ada);
          Called 1 [Sample.ada; Sample.acme];
          Called 2 [Sample.ada; Sample.acme];
          SetItem STORAGE_KEY (stored_text Sample.ada);
          Called 1 [Sample.ada; Sample.acme];
          Called 2 [Sample.ada; Sample.acme]].
Proof.
  apply (proj1 (proj2 (init_not_once_only
                         [VUndefined; Sample.with_custom_page; VObj []]
                         Sample.from_popup (set_listeners [] Sample.waiting)
                         ltac:(repeat constructor; discriminate)
                         eq_refl eq_refl))).
  exists [("type", VStr AUTH_SUCCESS); ("user", Sample.ada);
          ("service", Sample.acme)].
  split; reflexivity.
Defined.

Lemma getUser_registered_logout l st :
  getUser (set_callbacks_logout l st)
  = (fst (getUser st), set_callbacks_logout l (snd (getUser st))).
Proof.
  unfold getUser, bind, getItem, read, lift. unfold_state.
  destruct (localStorage st !! STORAGE_KEY) as [s|]; [|reflexivity].
  now destruct (stored_truthy (Some s)).
Qed.

Lemma apiLogout_fn f st user :
  fst (getUser st) = Normal user ->
  forallb returns (callbacks_logout st ++ [f]) = true ->
  step (ApiLogout (Fn f)) st
  = log (RemoveItem STORAGE_KEY :: invocations (callbacks_logout st ++ [f]) [user])
      (set_localStorage (delete STORAGE_KEY (localStorage st))
         (set_callbacks_logout (callbacks_logout st ++ [f]) st)).
Proof.
  intros Hu Hr. cbn [step]. unfold API.logout, bind.
  cbn [arg_truthy onLogout act]. cbn iota beta.
  rewrite (logout_notifies _ user).
  - reflexivity.
  - now rewrite getUser_registered_logout.
  - exact Hr.
Qed.

Lemma apiLogout_plain st user :
  fst (getUser st) = Normal user ->
  forallb returns (callbacks_logout st) = true ->
  step (ApiLogout (Val VUndefined)) st
  = log (RemoveItem STORAGE_KEY :: invocations (callbacks_logout st) [user])
      (set_localStorage (delete STORAGE_KEY (localStorage st)) st).
Proof.
  intros Hu Hr. cbn [step]. unfold API.logout, bind.
  cbn [arg_truthy truthy ret]. cbn iota beta.
  now rewrite (logout_notifies _ user).
Qed.

(** C10: a callback given to [showLogin] as [onSuccess], or to the
    convenience layer's [logout], is appended to the registry; no action ever
    removes an entry of a registry; so after [n] calls of [showLogin] with
    [onSuccess], every later success message calls [onSuccess] [n] more
    times, and a callback given to one [logout] is called again by the
    next. *)
Theorem convenience_callbacks_stay :
  (forall o pg opened st,
     arg_truthy (API.onSuccess o) = true ->
     callbacks_login (step (ShowLogin o pg opened) st)
     = callbacks_login st ++ [OnSuccessWrapper (API.onSuccess o)]) /\
  (forall f st,
     callbacks_logout (step (ApiLogout (Fn f)) st) = callbacks_logout st ++ [f]) /\
  (forall acts st,
     (exists more, callbacks_login (run acts st) = callbacks_login st ++ more) /\
     (exists more, callbacks_logout (run acts st) = callbacks_logout st ++ more)) /\
  (forall o pg ops f l ev st,
     API.onSuccess o = Fn f ->
     returns f = true ->
     forallb returns (callbacks_login st) = true ->
     carries_tag (data ev) ->
     let user := field (data ev) "user" in
     let service := field (data ev) "service" in
     let st_n := run (List.map (ShowLogin o pg) ops) st in
     trace (snd (on_message l ev st_n))
     = trace st_n ++ [SetItem STORAGE_KEY (stored_text user)]
         ++ invocations (callbacks_login st) [user; service]
         ++ concat (repeat (calls f [user; service]) (length ops))
         ++ close_effects (authPopup st_n)) /\
  (forall f st,
     localStorage st !! STORAGE_KEY = None ->
     returns f = true ->
     forallb returns (callbacks_logout st) = true ->
     trace (run [ApiLogout (Fn f); ApiLogout (Val VUndefined)] st)
     = trace st
         ++ RemoveItem STORAGE_KEY :: invocations (callbacks_logout st) [VNull]
         ++ calls f [VNull]
         ++ RemoveItem STORAGE_KEY :: invocations (callbacks_logout st) [VNull]
         ++ calls f [VNull]).
Proof.
  split; [|split; [|split; [|split]]].
  - intros o pg opened st H. now apply showLogin_registers.
  - intros f st. apply apiLogout_registers.
  - intros acts st. apply registries_grow.
  - intros o pg ops f l ev st Ho Hf Hr Ht user service st_n.
    assert (Hreg : callbacks_login st_n
                   = callbacks_login st
                       ++ repeat (OnSuccessWrapper (Fn f)) (length ops)).
    { unfold st_n. rewrite showLogins_register by now rewrite Ho.
      now rewrite Ho. }
    rewrite on_message_success; [|exact Ht|].
    + unfold_state. rewrite Hreg, invocations_app, invocations_repeat.
      rewrite <- !app_assoc. reflexivity.
    + rewrite Hreg, forallb_returns_app, Hr. cbn [andb].
      clear Hreg. induction (length ops) as [|n IH]; [reflexivity|].
      cbn [repeat forallb returns]. now rewrite Hf.
  - intros f st Hs Hf Hr.
    assert (Hr' : forallb returns (callbacks_logout st ++ [f]) = true).
    { rewrite forallb_returns_app, Hr. cbn. now rewrite Hf. }
    cbn [run fold_left].
    rewrite (apiLogout_fn f st VNull); [|now rewrite getUser_absent|exact Hr'].
    rewrite (apiLogout_plain _ VNull).
    + unfold_state. rewrite !invocations_app. unfold invocations at 2 4.
      cbn [List.flat_map]. rewrite !app_nil_r.
      repeat (rewrite <- app_assoc || rewrite <- app_comm_cons). reflexivity.
    + rewrite getUser_absent; [reflexivity|]. unfold_state.
      apply lookup_delete_eq.
    + exact Hr'.
Qed.

Lemma convenience_callbacks_stay_witness :
  trace (snd (on_message Sample.closure Sample.from_popup
                (run (List.map (ShowLogin Sample.login_with_callback Sample.desktop)
                        [Some 7; Some 7; Some 7])
                   Sample.waiting)))
  = trace (run (List.map (ShowLogin Sample.login_with_callback Sample.desktop)
                  [Some 7; Some 7; Some 7])
             Sample.waiting)
      ++ [SetItem STORAGE_KEY (stored_text Sample.ada);
          Called 1 [Sample.ada; Sample.acme];
          Called 2 [Sample.ada; Sample.acme];
          Called 5 [Sample.ada; Sample.acme];
          Called 5 [Sample.ada; Sample.acme];
          Called 5 [Sample.ada; Sample.acme];
          Close 7].
Proof.
  apply (proj1 (proj2 (proj2 (proj2 convenience_callbacks_stay)))
           Sample.login_with_callback Sample.desktop [Some 7; Some 7; Some 7]
           (Handler 5 false) Sample.closure Sample.from_popup Sample.waiting
           eq_refl eq_refl eq_refl).
  exists [("type", VStr AUTH_SUCCESS); ("user", Sample.ada);
          ("service", Sample.acme)].
  split; reflexivity.
Defined.

(** ** What [JSON.stringify] writes *)

(** The text stored for a user always has a first character, also for
    [undefined]. *)
Lemma stored_text_nonempty (user : value) :
  exists c r, default "undefined" (JSON_stringify user) = String c r.
Proof.
  destruct user as [| |[]|s|l|ps]; cbn [JSON_stringify]; unfold quote;
    norm_app; cbn; eauto.
Qed.

(* ===================================================================== *)
(** * Further properties of [guahh-auth.js] *)
(* ===================================================================== *)
Import Edge.

(** ** The session key and the poll timers over every action *)

(** A property of the store that survives a non-empty write and the removal
    of the session key survives every action. *)
Lemma storage_step (Q : gmap string string -> Prop) a st :
  (forall m v, v <> "" -> Q m -> Q (<[STORAGE_KEY := v]> m)) ->
  (forall m, Q m -> Q (delete STORAGE_KEY m)) ->
  Q (localStorage st) -> Q (localStorage (step a st)).
Proof.
  intros Hset Hdel.
  set (P := fun s : state => Q (localStorage s)).
  assert (Pemit : forall e s, harmless e = true -> P s -> P (emit e s))
    by (intros e s _ H; exact H).
  assert (Pforeach : forall cbs args, preserves P (forEach cbs args))
    by (intros cbs args; now apply preserves_forEach).
  assert (Plogout : preserves P logout).
  { unfold logout. apply preserves_bind; [apply preserves_getUser|]. intros user.
    apply preserves_bind; [apply preserves_act; intros s H; now apply Hdel|].
    intros _. apply preserves_bind; [apply preserves_read|]. intros cbs.
    apply Pforeach. }
  assert (Pmessage : forall l ev, preserves P (on_message l ev)).
  { intros l ev. unfold on_message.
    destruct (is_auth_success (data ev)); [|apply preserves_ret].
    apply preserves_bind; [apply preserves_lift|]. intros user.
    apply preserves_bind; [apply preserves_lift|]. intros service.
    apply preserves_bind.
    { apply preserves_act. intros s H. apply Hset; [|exact H].
      destruct (stored_text_nonempty user) as (c & r & E).
      unfold stored_text in E. rewrite E. discriminate. }
    intros _. apply preserves_bind; [apply preserves_read|]. intros cbs.
    apply preserves_bind; [apply Pforeach|].
    intros _ s H. unfold closeIfOpen. now destruct (authPopup s). }
  assert (Pshow : forall si pg op s, P s -> P (snd (show si pg op s))).
  { intros si pg op s H.
    now apply (preserves_show P (fun _ _ => True)). }
  destruct a as [o|si pg op| | |c|c|ev|t|w|o pg op|c]; cbn [step]; intros H.
  - now apply (preserves_init P).
  - now apply Pshow.
  - now apply (preserves_getUser P).
  - now apply Plogout.
  - now apply (preserves_onLogin P).
  - now apply (preserves_onLogout P).
  - unfold message. generalize (listeners st). intros ls. revert st H.
    induction ls as [|l ls IH]; intros st H; [exact H|].
    cbn [dispatch]. apply IH. now apply Pmessage.
  - unfold poll. case_bool_decide; [|exact H].
    destruct (authPopup st); [|exact H]. now case_bool_decide.
  - exact H.
  - unfold API.showLogin, bind.
    destruct (arg_truthy (API.onSuccess o)); cbn [onLogin act ret];
      cbn iota beta; now apply Pshow.
  - unfold API.logout. apply preserves_bind; [|intros _; exact Plogout|exact H].
    destruct (arg_truthy c); [apply preserves_onLogout; auto|apply preserves_ret].
Qed.

(** X1: no action reads or writes a key of [localStorage] other than the
    session key: on every run, every other key holds what it held. *)
Theorem other_keys_untouched (acts : list action) (st : state) (k : string) :
  k <> STORAGE_KEY ->
  localStorage (run acts st) !! k = localStorage st !! k.
Proof.
  intros Hk. revert st. induction acts as [|a acts IH]; intros st; [reflexivity|].
  cbn [run fold_left]. fold (run acts (step a st)). rewrite IH.
  apply (storage_step (fun m => m !! k = localStorage st !! k)).
  - intros m v _ H. now rewrite lookup_insert_ne.
  - intros m H. now rewrite lookup_delete_ne.
  - reflexivity.
Qed.

Lemma other_keys_untouched_witness :
  localStorage (run Sample.visit (fresh_page {["theme" := "dark"]})) !! "theme"
  = localStorage (fresh_page {["theme" := "dark"]}) !! "theme".
Proof.
  apply (other_keys_untouched Sample.visit (fresh_page {["theme" := "dark"]})
           "theme").
  discriminate.
Defined.

(** X2: the widget never persists the empty string: if the session is not
    the empty string before a run it is not after it, so whenever a value is
    persisted after the run, [getUser] answers what [JSON.parse] makes of
    it. *)
Theorem never_stores_empty_session (acts : list action) (st : state) :
  session_not_empty (localStorage st) ->
  session_not_empty (localStorage (run acts st)) /\
  forall s, localStorage (run acts st) !! STORAGE_KEY = Some s ->
            getUser (run acts st) = (JSON_parse s, run acts st).
Proof.
  intros H.
  assert (Hrun : session_not_empty (localStorage (run acts st))).
  { revert st H. induction acts as [|a acts IH]; intros st H; [exact H|].
    cbn [run fold_left]. fold (run acts (step a st)). apply IH.
    apply (storage_step session_not_empty); [| |exact H]; unfold session_not_empty.
    - intros m v Hv _. rewrite lookup_insert_eq. congruence.
    - intros m _. now rewrite lookup_delete_eq. }
  split; [exact Hrun|].
  intros s Hs. apply getUser_stored; [exact Hs|].
  intros ->. now apply Hrun.
Qed.

Lemma never_stores_empty_session_witness :
  session_not_empty (localStorage (run Sample.visit (fresh_page ∅))) /\
  forall s, localStorage (run Sample.visit (fresh_page ∅)) !! STORAGE_KEY = Some s ->
            getUser (run Sample.visit (fresh_page ∅))
            = (JSON_parse s, run Sample.visit (fresh_page ∅)).
Proof.
  apply (never_stores_empty_session Sample.visit (fresh_page ∅)).
  unfold session_not_empty. cbn. rewrite lookup_empty. discriminate.
Defined.

(** ** Poll timers *)

(** X3: a poll timer stops in one way only: by a tick of its own that finds
    the tracked popup closed.  Every other action, a success message
    included, leaves every running timer running, so the timer of a popup
    that the handshake closed keeps ticking. *)
Theorem timer_stops_only_at_its_poll (a : action) (st : state) (t : nat) :
  t ∈ intervals st ->
  (not_poll a = true -> t ∈ intervals (step a st)) /\
  (t ∉ intervals (step a st) ->
   a = Poll t /\ exists w, authPopup st = Some w /\ w ∈ closed st).
Proof.
  intros Ht.
  set (P := fun s : state => t ∈ intervals s).
  assert (Pemit : forall e s, harmless e = true -> P s -> P (emit e s))
    by (intros e s _ H; exact H).
  assert (Pclose : forall s, P s -> P (snd (closeIfOpen s))).
  { intros s H. unfold closeIfOpen. now destruct (authPopup s). }
  assert (Ptimer : forall s, P s ->
            P (set_intervals ({[next_timer s]} ∪ intervals s) (S (next_timer s)) s)).
  { intros s H. unfold P in *. unfold_state. apply elem_of_union. now right. }
  assert (Pshow : forall si pg op s, P s -> P (snd (show si pg op s))).
  { intros si pg op s H. now apply (preserves_show P (fun _ _ => True)). }
  assert (Hkeep : not_poll a = true -> t ∈ intervals (step a st)).
  { destruct a as [o|si pg op| | |c|c|ev|t'|w|o pg op|c]; cbn [step not_poll];
      intros Hp; try discriminate Hp.
    - now apply (preserves_init P).
    - now apply Pshow.
    - now apply (preserves_getUser P).
    - now apply (preserves_logout P).
    - now apply (preserves_onLogin P).
    - now apply (preserves_onLogout P).
    - now apply (preserves_dispatch P).
    - exact Ht.
    - unfold API.showLogin, bind.
      destruct (arg_truthy (API.onSuccess o)); cbn [onLogin act ret];
        cbn iota beta; now apply Pshow.
    - unfold API.logout.
      apply preserves_bind;
        [|intros _; now apply (preserves_logout P)|exact Ht].
      destruct (arg_truthy c); [now apply (preserves_onLogout P)|apply preserves_ret]. }
  split; [exact Hkeep|].
  intros Hgone. destruct a as [o|si pg op| | |c|c|ev|t'|w|o pg op|c];
    try (exfalso; apply Hgone, Hkeep; reflexivity).
  cbn [step] in Hgone. unfold poll in Hgone.
  case_bool_decide as Hin; [|contradiction].
  destruct (authPopup st) as [w|]; [|contradiction].
  case_bool_decide as Hc; [|contradiction].
  unfold_state.
  destruct (decide (t' = t)) as [->|Hne].
  - split; [reflexivity|]. eauto.
  - exfalso. apply Hgone. apply elem_of_difference. split; [exact Ht|].
    rewrite elem_of_singleton. congruence.
Qed.

Lemma timer_stops_only_at_its_poll_witness :
  0 ∈ intervals (step (Message Sample.from_popup) Sample.waiting).
Proof.
  apply (proj1 (timer_stops_only_at_its_poll (Message Sample.from_popup)
                  Sample.waiting 0
                  ltac:(apply (bool_decide_unpack _); vm_compute; exact I))).
  reflexivity.
Defined.

(** ** Sessions that cannot be read *)

Lemma init_malformed options st s :
  options <> VNull ->
  localStorage st !! STORAGE_KEY = Some s ->
  s <> "" ->
  JSON_parse s = Throw SyntaxError ->
  init options st
  = (Throw SyntaxError,
     log [AddListener]
       (set_listeners
          (listeners st
             ++ [{| scope_authPageUrl :=
                      or_else (default VUndefined
                                 (match or_empty_object options with
                                  | VObj ps => lookup_prop "authPageUrl" ps
                                  | _ => None
                                  end))
                        (VStr AUTH_PAGE_URL) |}]) st)).
Proof.
  intros Hn Hs Hne Hp. unfold init.
  assert (get (or_empty_object options) "authPageUrl"
          = Normal (default VUndefined
                      (match or_empty_object options with
                       | VObj ps => lookup_prop "authPageUrl" ps
                       | _ => None
                       end))) as ->.
  { destruct options; cbn; try reflexivity. congruence. }
  unfold bind, lift, act, getItem, read. cbn iota beta.
  unfold_state. rewrite Hs. cbn [stored_truthy default from_option id].
  apply String.eqb_neq in Hne. rewrite Hne. cbn [negb]. now rewrite Hp.
Qed.

Lemma logout_malformed st s :
  localStorage st !! STORAGE_KEY = Some s ->
  s <> "" ->
  JSON_parse s = Throw SyntaxError ->
  logout st = (Throw SyntaxError, st).
Proof.
  intros Hs Hne Hp. unfold logout, bind.
  now rewrite (getUser_stored st s Hs Hne), Hp.
Qed.

(** X4: with a persisted session that is not valid JSON, [logout] throws the
    [SyntaxError] of its own [getUser] before it removes anything: the
    session stays as it is and no logout callback is called, also through
    the convenience layer's [logout] (whose callback is registered all the
    same). *)
Theorem logout_keeps_unreadable_session (st : state) (s : string) :
  localStorage st !! STORAGE_KEY = Some s ->
  s <> "" ->
  JSON_parse s = Throw SyntaxError ->
  logout st = (Throw SyntaxError, st) /\
  forall f,
    fst (API.logout (Fn f) st) = Throw SyntaxError /\
    localStorage (snd (API.logout (Fn f) st)) = localStorage st /\
    trace (snd (API.logout (Fn f) st)) = trace st /\
    callbacks_logout (snd (API.logout (Fn f) st)) = callbacks_logout st ++ [f].
Proof.
  intros Hs Hne Hp. split; [now apply (logout_malformed st s)|].
  intros f. unfold API.logout, bind. cbn [arg_truthy onLogout act].
  cbn iota beta.
  rewrite (logout_malformed _ s); [now repeat split| |exact Hne|exact Hp].
  exact Hs.
Qed.

Lemma logout_keeps_unreadable_session_witness :
  logout Sample.broken = (Throw SyntaxError, Sample.broken).
Proof.
  apply (logout_keeps_unreadable_session Sample.broken "undefined").
  - reflexivity.
  - discriminate.
  - vm_compute. reflexivity.
Defined.

(** ** [show] *)

Lemma show_normal serviceInfo pg opened st :
  serviceInfo <> VNull ->
  exists name url,
    show serviceInfo pg opened st = (Normal tt, shown name url pg opened st).
Proof.
  intros Hn. unfold show.
  assert (forall k, exists p, get (or_empty_object serviceInfo) k = Normal p) as Hg.
  { intros k. destruct serviceInfo; cbn; eauto. congruence. }
  destruct (Hg "name") as [name ->], (Hg "url") as [url ->].
  unfold setInterval, bind, lift, act. cbn iota beta.
  eexists _, _. unfold shown.
  destruct opened as [w|]; unfold_state; rewrite <- !app_assoc; reflexivity.
Qed.

(** X5: [show(null)] throws a [TypeError] before it does anything.  For every
    other argument [show] returns; the popup tracked afterwards is exactly
    what [window.open] answered, so a blocked popup leaves none tracked even
    if one was; a poll timer is started if and only if a window was opened;
    the session, both registries and the closed windows are as before. *)
Theorem show_tracks_what_opened
    (serviceInfo : value) (pg : page) (opened : option nat) (st : state) :
  (serviceInfo = VNull ->
   show serviceInfo pg opened st = (Throw TypeError, st)) /\
  (serviceInfo <> VNull ->
   fst (show serviceInfo pg opened st) = Normal tt /\
   authPopup (snd (show serviceInfo pg opened st)) = opened /\
   intervals (snd (show serviceInfo pg opened st))
   = match opened with
     | Some _ => {[next_timer st]} ∪ intervals st
     | None => intervals st
     end /\
   localStorage (snd (show serviceInfo pg opened st)) = localStorage st /\
   callbacks_login (snd (show serviceInfo pg opened st)) = callbacks_login st /\
   callbacks_logout (snd (show serviceInfo pg opened st)) = callbacks_logout st /\
   closed (snd (show serviceInfo pg opened st)) = closed st).
Proof.
  split.
  - intros ->. reflexivity.
  - intros Hn. destruct (show_normal serviceInfo pg opened st Hn) as (n & u & ->).
    now repeat split.
Qed.

(** X6: a success message closes the window of the latest [show] and no
    other: after [show] the listener (with login callbacks that return)
    closes exactly what [window.open] answered, and nothing when the popup
    was blocked, whatever was tracked before. *)
Theorem latest_popup_is_the_one_closed
    (serviceInfo : value) (pg : page) (opened : option nat)
    (l : listener) (ev : event) (st : state) :
  serviceInfo <> VNull ->
  carries_tag (data ev) ->
  forallb returns (callbacks_login st) = true ->
  exists st2,
    on_message l ev (snd (show serviceInfo pg opened st)) = (Normal tt, st2) /\
    trace st2
    = trace (snd (show serviceInfo pg opened st))
        ++ [SetItem STORAGE_KEY (stored_text (field (data ev) "user"))]
        ++ invocations (callbacks_login st)
             [field (data ev) "user"; field (data ev) "service"]
        ++ close_effects opened /\
    closed st2 = close_windows opened (closed st) /\
    authPopup st2 = None.
Proof.
  intros Hn Ht Hr.
  destruct (show_normal serviceInfo pg opened st Hn) as (n & u & ->).
  cbn [snd]. eexists. split.
  - apply on_message_success; [exact Ht|exact Hr].
  - now repeat split.
Qed.

Lemma latest_popup_is_the_one_closed_witness :
  exists st2,
    on_message Sample.closure Sample.from_popup
      (snd (show Sample.acme Sample.desktop None Sample.waiting))
    = (Normal tt, st2) /\
    trace st2
    = trace (snd (show Sample.acme Sample.desktop None Sample.waiting))
        ++ [SetItem STORAGE_KEY (stored_text (field (data Sample.from_popup) "user"))]
        ++ invocations (callbacks_login Sample.waiting)
             [field (data Sample.from_popup) "user";
              field (data Sample.from_popup) "service"]
        ++ close_effects None /\
    closed st2 = close_windows None (closed Sample.waiting) /\
    authPopup st2 = None.
Proof.
  apply (latest_popup_is_the_one_closed Sample.acme Sample.desktop None
           Sample.closure Sample.from_popup Sample.waiting).
  - discriminate.
  - exists [("type", VStr AUTH_SUCCESS); ("user", Sample.ada);
            ("service", Sample.acme)].
    split; reflexivity.
  - reflexivity.
Defined.

(** ** The popup's address and place *)





(** X8: the popup is centred on the screen: twice [left] plus the width 500
    is the screen's width or one more, twice [top] plus the height 650 the
    screen's height or one more, and these are the numbers in the features
    [show] passes to [window.open]. *)
Theorem popup_is_centred (pg : page) :
  exists left top,
    popup_features pg
    = "width=500,height=650,left=" +:+ pretty left +:+ ",top=" +:+ pretty top
      +:+ ",resizable=yes,scrollbars=yes,status=yes" /\
    (0 <= 2 * left + 500 - screen_width pg <= 1)%Z /\
    (0 <= 2 * top + 650 - screen_height pg <= 1)%Z.
Proof.
  exists (centered (screen_width pg) 500), (centered (screen_height pg) 650).
  split; [reflexivity|]. unfold centered.
  pose proof (Z.div_mod (screen_width pg - 500 + 1) 2 ltac:(lia)) as H1.
  pose proof (Z.mod_pos_bound (screen_width pg - 500 + 1) 2 ltac:(lia)) as H2.
  pose proof (Z.div_mod (screen_height pg - 650 + 1) 2 ltac:(lia)) as H3.
  pose proof (Z.mod_pos_bound (screen_height pg - 650 + 1) 2 ltac:(lia)) as H4.
  lia.
Qed.

(** ** A callback that throws *)

Lemma invoke_raises : forall f args st e,
  raises f = Some e -> invoke f args st = (Throw e, log (calls f args) st).
Proof.
  fix IH 1. intros [id throws|[g|v]] args st e H; cbn [raises calls invoke] in *.
  - destruct throws; [|discriminate H]. injection H as <-. reflexivity.
  - now apply IH.
  - injection H as <-. cbn. now rewrite log_nil.
Qed.

Lemma forEach_raises pre f post args st e :
  forallb returns pre = true ->
  raises f = Some e ->
  forEach (pre ++ f :: post) args st
  = (Throw e, log (invocations pre args ++ calls f args) st).
Proof.
  revert st. induction pre as [|p pre IH]; intros st Hr Hf.
  - cbn [app forEach]. unfold bind. now rewrite (invoke_raises f args st e Hf).
  - cbn [forallb] in Hr. apply andb_prop in Hr as [Hp Hr].
    cbn [app forEach]. unfold bind. rewrite (invoke_returns p args st Hp).
    rewrite (IH _ Hr Hf), log_log.
    unfold invocations. cbn [List.flat_map]. now rewrite <- app_assoc.
Qed.

Lemma throwing_callback_raised l ev st pre post f e :
  callbacks_login st = pre ++ f :: post ->
  forallb returns pre = true ->
  raises f = Some e ->
  carries_tag (data ev) ->
  exists st',
    on_message l ev st = (Throw e, st') /\
    trace st'
    = trace st ++ [SetItem STORAGE_KEY (stored_text (field (data ev) "user"))]
        ++ invocations pre [field (data ev) "user"; field (data ev) "service"]
        ++ calls f [field (data ev) "user"; field (data ev) "service"] /\
    localStorage st'
    = <[STORAGE_KEY := stored_text (field (data ev) "user")]> (localStorage st) /\
    authPopup st' = authPopup st /\
    closed st' = closed st.
Proof.
  intros Hc Hr Hf Ht. unfold on_message.
  rewrite (proj2 (is_auth_success_iff _) Ht).
  destruct Ht as (ps & Hd & _). rewrite Hd.
  unfold bind, lift, get, setUser, setItem, act, read.
  cbn [snd fst callbacks_login emit set_localStorage]. rewrite Hc.
  rewrite (forEach_raises pre f post _ _ e Hr Hf).
  eexists. split; [reflexivity|]. unfold_state. cbn [field].
  rewrite <- !app_assoc. now repeat split.
Qed.

(** X9: a login callback that throws ends the handling of a success message
    where it stands: the user is stored and the callbacks registered before
    it have been called, the callbacks registered after it are not called,
    the popup stays open and tracked, and the listener completes with the
    callback's error. *)
Theorem throwing_callback_stops_dispatch
    (l : listener) (ev : event) (st : state) (pre post : list fn) (f : fn)
    (e : error) :
  callbacks_login st = pre ++ f :: post ->
  forallb returns pre = true ->
  raises f = Some e ->
  carries_tag (data ev) ->
  exists st',
    on_message l ev st = (Throw e, st') /\
    localStorage st'
    = <[STORAGE_KEY := stored_text (field (data ev) "user")]> (localStorage st) /\
    trace st'
    = trace st ++ [SetItem STORAGE_KEY (stored_text (field (data ev) "user"))]
        ++ invocations pre [field (data ev) "user"; field (data ev) "service"]
        ++ calls f [field (data ev) "user"; field (data ev) "service"] /\
    authPopup st' = authPopup st /\
    closed st' = closed st.
Proof.
  intros Hc Hr Hf Ht.
  destruct (throwing_callback_raised l ev st pre post f e Hc Hr Hf Ht)
    as (st' & H1 & H2 & H3 & H4 & H5).
  exists st'. now repeat split.
Qed.

Lemma throwing_callback_stops_dispatch_witness :
  exists st',
    on_message Sample.closure Sample.from_popup
      (set_callbacks_login [Handler 1 false; Handler 2 true; Handler 3 false]
         Sample.waiting)
    = (Throw (AppError 2), st') /\
    trace st' = [SetItem STORAGE_KEY (stored_text Sample.ada);
                 Called 1 [Sample.ada; Sample.acme];
                 Called 2 [Sample.ada; Sample.acme]] /\
    authPopup st' = Some 7.
Proof.
  destruct (throwing_callback_stops_dispatch Sample.closure Sample.from_popup
              (set_callbacks_login [Handler 1 false; Handler 2 true; Handler 3 false]
                 Sample.waiting)
              [Handler 1 false] [Handler 3 false] (Handler 2 true) (AppError 2)
              eq_refl eq_refl eq_refl
              (ex_intro _ [("type", VStr AUTH_SUCCESS); ("user", Sample.ada);
                           ("service", Sample.acme)] (conj eq_refl eq_refl)))
    as (st' & H1 & _ & H3 & H4 & _).
  exists st'. split; [exact H1|]. split; [exact H3|exact H4].
Defined.

(** ** [onSuccess] and [logout]'s callback when they are no functions *)

(** X10: [showLogin] tests [onSuccess] for truth only, so a truthy value that
    is no function is wrapped and registered like a function; at the next
    success message the wrapper throws a [TypeError]: the user is stored, the
    callbacks registered earlier are called, and the popup that [showLogin]
    opened stays open and tracked.  The convenience layer's [logout] passes
    its callback through [onLogout], which registers functions only. *)
Theorem non_function_onSuccess_breaks_login
    (o : API.login_options) (pg : page) (opened : option nat)
    (l : listener) (ev : event) (st : state) (v : value) :
  API.onSuccess o = Val v ->
  truthy v = true ->
  forallb returns (callbacks_login st) = true ->
  carries_tag (data ev) ->
  callbacks_login (step (ShowLogin o pg opened) st)
  = callbacks_login st ++ [OnSuccessWrapper (Val v)] /\
  fst (on_message l ev (step (ShowLogin o pg opened) st)) = Throw TypeError /\
  authPopup (snd (on_message l ev (step (ShowLogin o pg opened) st))) = opened /\
  trace (snd (on_message l ev (step (ShowLogin o pg opened) st)))
  = trace (step (ShowLogin o pg opened) st)
      ++ [SetItem STORAGE_KEY (stored_text (field (data ev) "user"))]
      ++ invocations (callbacks_login st)
           [field (data ev) "user"; field (data ev) "service"] /\
  step (ApiLogout (Val v)) st = step Logout st.
Proof.
  intros Ho Hv Hr Ht.
  assert (Hreg : callbacks_login (step (ShowLogin o pg opened) st)
                 = callbacks_login st ++ [OnSuccessWrapper (Val v)]).
  { rewrite showLogin_registers; rewrite Ho; [reflexivity|exact Hv]. }
  assert (Hpop : authPopup (step (ShowLogin o pg opened) st) = opened).
  { cbn [step]. unfold API.showLogin, bind. rewrite Ho. cbn [arg_truthy].
    rewrite Hv. cbn [onLogin act]. cbn iota beta.
    match goal with |- context [show ?si pg opened ?s] =>
      destruct (show_normal si pg opened s ltac:(discriminate)) as (n & u & ->)
    end. reflexivity. }
  split; [exact Hreg|].
  destruct (throwing_callback_raised l ev (step (ShowLogin o pg opened) st)
              (callbacks_login st) [] (OnSuccessWrapper (Val v)) TypeError
              Hreg Hr eq_refl Ht) as (st' & E & Htr & _ & Hp & _).
  rewrite E. cbn [fst snd]. split; [reflexivity|]. split; [congruence|].
  split.
  - rewrite Htr. cbn [calls]. now rewrite app_nil_r.
  - cbn [step]. unfold API.logout, bind. cbn [arg_truthy]. rewrite Hv.
    cbn [onLogout ret]. reflexivity.
Qed.

Lemma non_function_onSuccess_breaks_login_witness :
  fst (on_message Sample.closure Sample.from_popup
         (step (ShowLogin {| API.serviceName := VStr "Acme";
                             API.serviceUrl := VUndefined;
                             API.onSuccess := Val (VStr "done") |}
                  Sample.desktop (Some 7)) Sample.waiting))
  = Throw TypeError.
Proof.
  apply (non_function_onSuccess_breaks_login
           {| API.serviceName := VStr "Acme";
              API.serviceUrl := VUndefined;
              API.onSuccess := Val (VStr "done") |}
           Sample.desktop (Some 7) Sample.closure Sample.from_popup
           Sample.waiting (VStr "done") eq_refl eq_refl eq_refl).
  exists [("type", VStr AUTH_SUCCESS); ("user", Sample.ada);
          ("service", Sample.acme)].
  split; reflexivity.
Defined.

(** ** Success messages and the session *)

(** X11: a success message without a [user] stores the text [undefined];
    from then on the session cannot be read: [getUser] and [init] throw a
    [SyntaxError], and so does [logout], which therefore cannot clear it.  A
    later success message that carries a user is what repairs it. *)
Theorem success_without_user_breaks_session
    (l : listener) (ev : event) (st : state) :
  carries_tag (data ev) ->
  field (data ev) "user" = VUndefined ->
  forallb returns (callbacks_login st) = true ->
  exists st',
    on_message l ev st = (Normal tt, st') /\
    localStorage st' !! STORAGE_KEY = Some "undefined" /\
    getUser st' = (Throw SyntaxError, st') /\
    logout st' = (Throw SyntaxError, st') /\
    (forall options, options <> VNull ->
                     fst (init options st') = Throw SyntaxError) /\
    (forall l' ev',
       carries_tag (data ev') ->
       json_clean (field (data ev') "user") = true ->
       fst (getUser (snd (on_message l' ev' st')))
       = Normal (field (data ev') "user")).
Proof.
  intros Ht Hu Hr. eexists. split; [now apply on_message_success|].
  rewrite Hu.
  assert (Hs : localStorage (handshake VUndefined (field (data ev) "service") st)
               !! STORAGE_KEY = Some "undefined").
  { unfold_state. cbn. apply lookup_insert_eq. }
  assert (Hp : JSON_parse "undefined" = Throw SyntaxError)
    by (vm_compute; reflexivity).
  split; [exact Hs|]. split.
  { rewrite (getUser_stored _ "undefined" Hs); [now rewrite Hp|discriminate]. }
  split.
  { apply (logout_malformed _ "undefined"); [exact Hs|discriminate|exact Hp]. }
  split.
  { intros options Hn.
    now rewrite (init_malformed options _ "undefined" Hn Hs ltac:(discriminate) Hp). }
  intros l' ev' Ht' Hc.
  rewrite on_message_success; [|exact Ht'|exact Hr].
  destruct (stored_text_clean _ Hc) as [Hne Hparse].
  rewrite (getUser_stored _ (stored_text (field (data ev') "user")));
    [now rewrite Hparse| |exact Hne].
  unfold_state. apply lookup_insert_eq.
Qed.

Lemma success_without_user_breaks_session_witness :
  exists st',
    on_message Sample.closure
      {| data := VObj [("type", VStr AUTH_SUCCESS)]; origin := "https://elsewhere.test";
         source := None |} Sample.waiting
    = (Normal tt, st') /\
    getUser st' = (Throw SyntaxError, st') /\
    logout st' = (Throw SyntaxError, st').
Proof.
  destruct (success_without_user_breaks_session Sample.closure
              {| data := VObj [("type", VStr AUTH_SUCCESS)];
                 origin := "https://elsewhere.test"; source := None |}
              Sample.waiting
              (ex_intro _ [("type", VStr AUTH_SUCCESS)] (conj eq_refl eq_refl))
              eq_refl eq_refl)
    as (st' & H1 & _ & H3 & H4 & _).
  exists st'. split; [exact H1|]. split; [exact H3|exact H4].
Defined.

(** X12: [isLoggedIn] and [getCurrentUser] follow the session through a
    login and a logout: after a success message with a well-formed user,
    [getCurrentUser] answers that user and [isLoggedIn] answers true; after
    [logout] both find no user.  None of them changes the state. *)
Theorem logged_in_between_login_and_logout
    (l : listener) (ev : event) (st : state) :
  carries_tag (data ev) ->
  well_formed_user (field (data ev) "user") = true ->
  forallb returns (callbacks_login st) = true ->
  forallb returns (callbacks_logout st) = true ->
  exists st1 st2,
    on_message l ev st = (Normal tt, st1) /\
    API.getCurrentUser st1 = (Normal (field (data ev) "user"), st1) /\
    API.isLoggedIn st1 = (Normal true, st1) /\
    API.logout (Val VUndefined) st1 = (Normal tt, st2) /\
    API.getCurrentUser st2 = (Normal VNull, st2) /\
    API.isLoggedIn st2 = (Normal false, st2).
Proof.
  intros Ht Hw Hr Hr'.
  pose proof (well_formed_clean _ Hw) as Hc.
  destruct (stored_text_clean _ Hc) as [Hne Hparse].
  set (st1 := handshake (field (data ev) "user") (field (data ev) "service") st).
  assert (Hs : localStorage st1 !! STORAGE_KEY
               = Some (stored_text (field (data ev) "user"))).
  { unfold st1. unfold_state. apply lookup_insert_eq. }
  assert (Hg : getUser st1 = (Normal (field (data ev) "user"), st1)).
  { rewrite (getUser_stored st1 _ Hs Hne). now rewrite Hparse. }
  exists st1. eexists. split; [now apply on_message_success|].
  split; [exact Hg|]. split.
  { unfold API.isLoggedIn, bind. rewrite Hg. cbn [ret].
    destruct (field (data ev) "user"); try discriminate Hw; reflexivity. }
  split.
  { unfold API.logout, bind. cbn [arg_truthy truthy ret]. cbn iota beta.
    apply logout_notifies; [now rewrite Hg|exact Hr']. }
  assert (Hg2 : forall es, getUser
                  (log es (set_localStorage (delete STORAGE_KEY (localStorage st1)) st1))
                = (Normal VNull,
                   log es (set_localStorage (delete STORAGE_KEY (localStorage st1)) st1))).
  { intros es. apply getUser_absent. unfold_state. apply lookup_delete_eq. }
  split; [apply Hg2|].
  unfold API.isLoggedIn, bind. now rewrite Hg2.
Qed.

Lemma logged_in_between_login_and_logout_witness :
  exists st1 st2,
    on_message Sample.closure Sample.from_popup Sample.waiting = (Normal tt, st1) /\
    API.getCurrentUser st1
    = (Normal (field (data Sample.from_popup) "user"), st1) /\
    API.isLoggedIn st1 = (Normal true, st1) /\
    API.logout (Val VUndefined) st1 = (Normal tt, st2) /\
    API.getCurrentUser st2 = (Normal VNull, st2) /\
    API.isLoggedIn st2 = (Normal false, st2).
Proof.
  apply (logged_in_between_login_and_logout Sample.closure Sample.from_popup
           Sample.waiting
           (ex_intro _ [("type", VStr AUTH_SUCCESS); ("user", Sample.ada);
                        ("service", Sample.acme)] (conj eq_refl eq_refl))
           eq_refl eq_refl eq_refl).
Defined.

(** X13: [init] registers its listener before it reads the session, so an
    [init] that throws on an unreadable session has installed the listener
    all the same: the next success message with a user that serialises
    without loss replaces the session, and [getUser] answers that user. *)
Theorem failed_init_still_listens
    (options : value) (ev : event) (st : state) (s : string) :
  options <> VNull ->
  localStorage st !! STORAGE_KEY = Some s ->
  s <> "" ->
  JSON_parse s = Throw SyntaxError ->
  listeners st = [] ->
  forallb returns (callbacks_login st) = true ->
  carries_tag (data ev) ->
  json_clean (field (data ev) "user") = true ->
  fst (init options st) = Throw SyntaxError /\
  length (listeners (step (Init options) st)) = 1 /\
  trace (step (Init options) st) = trace st ++ [AddListener] /\
  fst (getUser (message ev (step (Init options) st)))
  = Normal (field (data ev) "user").
Proof.
  intros Hn Hs Hne Hp Hl Hr Ht Hc. cbn [step].
  rewrite (init_malformed options st s Hn Hs Hne Hp). cbn [fst snd].
  split; [reflexivity|]. split; [unfold_state; now rewrite Hl|].
  split; [reflexivity|].
  unfold message. unfold_state. rewrite Hl. cbn [app dispatch].
  rewrite on_message_success; [|exact Ht|exact Hr]. cbn [snd].
  destruct (stored_text_clean _ Hc) as [Hne' Hparse].
  rewrite (getUser_stored _ (stored_text (field (data ev) "user")));
    [now rewrite Hparse| |exact Hne'].
  unfold_state. apply lookup_insert_eq.
Qed.

Lemma failed_init_still_listens_witness :
  fst (init VUndefined Sample.broken) = Throw SyntaxError /\
  length (listeners (step (Init VUndefined) Sample.broken)) = 1 /\
  trace (step (Init VUndefined) Sample.broken)
  = trace Sample.broken ++ [AddListener] /\
  fst (getUser (message Sample.from_popup (step (Init VUndefined) Sample.broken)))
  = Normal (field (data Sample.from_popup) "user").
Proof.
  apply (failed_init_still_listens VUndefined Sample.from_popup Sample.broken
           "undefined").
  - discriminate.
  - reflexivity.
  - discriminate.
  - vm_compute. reflexivity.
  - reflexivity.
  - reflexivity.
  - exists [("type", VStr AUTH_SUCCESS); ("user", Sample.ada);
            ("service", Sample.acme)].
    split; reflexivity.
  - reflexivity.
Defined.

(* ===================================================================== *)
(** * The ready gate and the helpers on the document *)
(* ===================================================================== *)
Import Layer.

Ltac unfold_layer :=
  unfold set_core, set_isReady, set_readyCallbacks, set_click_listeners,
    dom_emit in *;
  cbn [core elements isReady readyCallbacks click_listeners dom_trace
       fst snd] in *.

Lemma set_core_core ly : set_core (core ly) ly = ly.
Proof. now destruct ly. Qed.

Lemma set_core_twice st st' ly : set_core st (set_core st' ly) = set_core st ly.
Proof. reflexivity. Qed.

Lemma in_core_run {A} (m : M A) ly c st' :
  m (core ly) = (c, st') -> in_core m ly = (c, set_core st' ly).
Proof. intros H. unfold in_core. now rewrite H. Qed.

Lemma call_ready_returns f ly :
  returns f = true ->
  call_ready (Fn f) ly = (Normal tt, set_core (log (calls f []) (core ly)) ly).
Proof.
  intros Hf. cbn [call_ready]. apply in_core_run. now apply invoke_returns.
Qed.

Lemma fire_ready_returns fs : forall ly,
  forallb returns fs = true ->
  fire_ready (map Fn fs) ly
  = (Normal tt, set_core (log (invocations fs []) (core ly)) ly).
Proof.
  induction fs as [|f fs IH]; intros ly Hfs.
  - cbn. unfold lret. now rewrite log_nil, set_core_core.
  - cbn [forallb] in Hfs. apply andb_true_iff in Hfs as [Hf Hfs].
    cbn [map fire_ready]. unfold lbind.
    rewrite (call_ready_returns f ly Hf), (IH _ Hfs).
    cbn [core set_core]. rewrite log_log. reflexivity.
Qed.

Lemma onReady_all_queues cbs : forall ly,
  isReady ly = false ->
  onReady_all cbs ly = set_readyCallbacks (readyCallbacks ly ++ cbs) ly.
Proof.
  induction cbs as [|cb cbs IH]; intros ly Hr.
  - cbn. rewrite app_nil_r. now destruct ly.
  - cbn [onReady_all fold_left]. fold (onReady_all cbs).
    assert (snd (onReady cb ly)
            = set_readyCallbacks (readyCallbacks ly ++ [cb]) ly) as ->.
    { unfold onReady, lbind, lread, lact. cbn beta iota. now rewrite Hr. }
    rewrite IH by exact Hr. unfold_layer. now rewrite <- app_assoc.
Qed.

Lemma retries_wait k : forall ly,
  retries k ly
  = {| core := core ly;
       elements := elements ly;
       isReady := isReady ly;
       readyCallbacks := readyCallbacks ly;
       click_listeners := click_listeners ly;
       dom_trace := dom_trace ly ++ repeat RetryInit k |}.
Proof.
  induction k as [|k IH]; intros ly.
  - cbn. rewrite app_nil_r. now destruct ly.
  - change (retries (S k) ly) with (snd (initWhenReady false (retries k ly))).
    rewrite IH. cbn [initWhenReady]. unfold lact. unfold_layer.
    rewrite <- app_assoc. f_equal. f_equal.
    change [RetryInit] with (repeat RetryInit 1).
    rewrite <- repeat_app. now rewrite Nat.add_comm.
Qed.

Lemma initWhenReady_fires ly fs st1 :
  init ready_options (core ly) = (Normal tt, st1) ->
  readyCallbacks ly = map Fn fs ->
  forallb returns fs = true ->
  initWhenReady true ly
  = (Normal tt,
     set_readyCallbacks []
       (set_core (log (invocations fs []) st1) (set_isReady true ly))).
Proof.
  intros Hi Hq Hfs. cbn [initWhenReady]. unfold lbind at 1, lact.
  unfold lbind at 1.
  rewrite (in_core_run (init ready_options) (set_isReady true ly) (Normal tt) st1)
    by exact Hi.
  unfold lbind at 1, lread. cbn [readyCallbacks set_core set_isReady].
  rewrite Hq. unfold lbind. rewrite fire_ready_returns by exact Hfs.
  reflexivity.
Qed.

(** X14: callbacks given to [onReady] before the widget is there are queued
    and not called, however often [initWhenReady] retries; the attempt that
    finds the widget initialises it and then calls them once, in the order
    they were given, and empties the queue; a callback given afterwards is
    called at once and is not queued. *)
Theorem ready_callbacks_fire_once (ly : layer) (fs : list fn) (g : fn) (k : nat) :
  isReady ly = false ->
  readyCallbacks ly = [] ->
  fst (init ready_options (core ly)) = Normal tt ->
  forallb returns fs = true ->
  returns g = true ->
  let waiting := retries k (onReady_all (map Fn fs) ly) in
  core waiting = core ly /\
  isReady waiting = false /\
  exists ly1,
    initWhenReady true waiting = (Normal tt, ly1) /\
    isReady ly1 = true /\
    readyCallbacks ly1 = [] /\
    trace (core ly1)
    = trace (snd (init ready_options (core ly))) ++ invocations fs [] /\
    exists ly2,
      onReady (Fn g) ly1 = (Normal tt, ly2) /\
      readyCallbacks ly2 = [] /\
      trace (core ly2) = trace (core ly1) ++ calls g [].
Proof.
  intros Hr Hq Hi Hfs Hg waiting.
  assert (Hw : waiting
               = {| core := core ly;
                    elements := elements ly;
                    isReady := false;
                    readyCallbacks := map Fn fs;
                    click_listeners := click_listeners ly;
                    dom_trace := dom_trace ly ++ repeat RetryInit k |}).
  { unfold waiting. rewrite retries_wait, onReady_all_queues by exact Hr.
    unfold_layer. now rewrite Hr, Hq. }
  rewrite Hw. cbn [core isReady]. split; [reflexivity|]. split; [reflexivity|].
  destruct (init ready_options (core ly)) as [c st1] eqn:Ei.
  cbn [fst snd] in *. subst c.
  eexists. split.
  { apply (initWhenReady_fires _ fs st1); [exact Ei|reflexivity|exact Hfs]. }
  unfold_layer. split; [reflexivity|]. split; [reflexivity|].
  split; [reflexivity|].
  eexists. split.
  { unfold onReady, lbind, lread. cbn [isReady].
    apply (call_ready_returns g); exact Hg. }
  unfold_layer. split; reflexivity.
Qed.

Lemma ready_callbacks_fire_once_witness :
  exists ly1,
    initWhenReady true
      (retries 3
         (onReady_all (map Fn [Handler 8 false; Handler 9 false])
            (Doc.loaded Sample.returning)))
    = (Normal tt, ly1) /\
    trace (core ly1)
    = trace (snd (init ready_options Sample.returning))
        ++ [Called 8 []; Called 9 []].
Proof.
  destruct (ready_callbacks_fire_once (Doc.loaded Sample.returning)
              [Handler 8 false; Handler 9 false] (Handler 10 false) 3)
    as (_ & _ & ly1 & H1 & _ & _ & H2 & _).
  - reflexivity.
  - reflexivity.
  - vm_compute. reflexivity.
  - reflexivity.
  - reflexivity.
  - exists ly1. split; [exact H1|exact H2].
Defined.



(** ** [updateElement] *)

Lemma getUser_reads st : snd (getUser st) = st.
Proof.
  unfold getUser, bind, getItem, read, lift, ret.
  destruct (localStorage st !! STORAGE_KEY) as [s|]; [|reflexivity].
  now destruct (stored_truthy (Some s)).
Qed.

Lemma getCurrentUser_run ly c :
  fst (getUser (core ly)) = c -> in_core API.getCurrentUser ly = (c, ly).
Proof.
  intros H. unfold in_core, API.getCurrentUser.
  now rewrite getUser_reads, set_core_core, H.
Qed.

(** What [updateElement] does once the session is read and the element
    found. *)
Lemma updateElement_text ly eid el property ps v t :
  fst (getUser (core ly)) = Normal (VObj ps) ->
  elements ly !! eid = Some el ->
  String.eqb (default "displayName" property) "profilePictureUrl" = false ->
  user_property (VObj ps) (default "displayName" property) = Normal v ->
  text_of (or_else v (VStr "")) = Normal t ->
  updateElement eid property ly = (Normal tt, dom_emit (SetTextContent eid t) ly).
Proof.
  intros Hu He Hp Hv Ht. unfold updateElement, lbind at 1.
  rewrite (getCurrentUser_run ly _ Hu). unfold lbind at 1, lread.
  rewrite He. cbn [truthy negb]. rewrite Hp.
  unfold lbind, llift, lact. now rewrite Hv, Ht.
Qed.

Lemma updateElement_picture ly eid el ps pfp :
  fst (getUser (core ly)) = Normal (VObj ps) ->
  elements ly !! eid = Some el ->
  match default VUndefined (lookup_prop "profilePictureUrl" ps) with
  | VStr p => if String.eqb p "" then None else Some p
  | _ => None
  end = pfp ->
  is_optional_string (lookup_prop "profilePictureUrl" ps) = true ->
  forall un, lookup_prop "username" ps = Some (VStr un) ->
  updateElement eid (Some "profilePictureUrl") ly
  = (Normal tt,
     dom_emit
       (let url := default ("https://api.dicebear.com/8.x/thumbs/svg?seed=" +:+ un)
                     pfp in
        if String.eqb (tagName el) "IMG" then SetSrc eid url
        else SetBackgroundImage eid ("url(" +:+ url +:+ ")")) ly).
Proof.
  intros Hu He Hp Ho un Hun. unfold updateElement, lbind at 1.
  rewrite (getCurrentUser_run ly _ Hu). unfold lbind at 1, lread.
  rewrite He. cbn [truthy negb default from_option id String.eqb].
  change (String.eqb "profilePictureUrl" "profilePictureUrl") with true.
  cbn iota. unfold lbind, llift, lact, lret. cbn [get]. rewrite Hun.
  destruct (lookup_prop "profilePictureUrl" ps) as [[| |b|p|l|qs]|];
    try discriminate Ho; cbn [default from_option id truthy text_of] in *;
    subst pfp.
  - destruct (String.eqb p "") eqn:E; cbn [negb default from_option id to_string];
      now destruct (String.eqb (tagName el) "IMG").
  - cbn. now destruct (String.eqb (tagName el) "IMG").
Qed.

(** X16: [updateElement] with nothing to show.  When the element is missing
    it only logs the error; when there is no user (no session, or one that
    reads back as a falsy value) it clears the element's text; the session
    stays as it is in both. *)
Theorem updateElement_nothing_to_show (ly : layer) (eid : string)
    (property : option string) (u : value) :
  fst (getUser (core ly)) = Normal u ->
  elements ly !! eid = None \/ truthy u = false ->
  updateElement eid property ly
  = (Normal tt,
     dom_emit (match elements ly !! eid with
               | None => Error (not_found "Element" eid)
               | Some _ => SetTextContent eid ""
               end) ly).
Proof.
  intros Hu H. unfold updateElement, lbind at 1.
  rewrite (getCurrentUser_run ly _ Hu). unfold lbind, lread.
  destruct (elements ly !! eid) as [el|] eqn:He; [|reflexivity].
  destruct H as [H|H]; [discriminate|]. now rewrite H.
Qed.

Lemma updateElement_nothing_to_show_witness :
  updateElement "name" None (Doc.loaded Sample.emptied)
  = (Normal tt,
     dom_emit (SetTextContent "name" "") (Doc.loaded Sample.emptied)).
Proof.
  apply (updateElement_nothing_to_show (Doc.loaded Sample.emptied) "name"
           None VNull).
  - reflexivity.
  - right. reflexivity.
Defined.

(** X17: [updateElement] reads the session before it looks for the element:
    with a persisted session that cannot be parsed it throws the
    [SyntaxError], whatever the element and the property, and neither logs
    nor writes anything. *)
Theorem updateElement_unreadable_session (ly : layer) (eid : string)
    (property : option string) (s : string) :
  localStorage (core ly) !! STORAGE_KEY = Some s ->
  s <> "" ->
  JSON_parse s = Throw SyntaxError ->
  updateElement eid property ly = (Throw SyntaxError, ly).
Proof.
  intros Hs Hne Hp. unfold updateElement, lbind.
  rewrite (getCurrentUser_run ly (Throw SyntaxError)); [reflexivity|].
  now rewrite (getUser_stored _ s Hs Hne), Hp.
Qed.

Lemma updateElement_unreadable_session_witness :
  updateElement "missing" None (Doc.loaded Sample.broken)
  = (Throw SyntaxError, Doc.loaded Sample.broken).
Proof.
  apply (updateElement_unreadable_session (Doc.loaded Sample.broken) "missing"
           None "undefined").
  - reflexivity.
  - discriminate.
  - vm_compute. reflexivity.
Defined.

Lemma stored_user_read st u :
  json_clean u = true ->
  localStorage st !! STORAGE_KEY = Some (stored_text u) ->
  fst (getUser st) = Normal u.
Proof.
  intros Hc Hs. destruct (stored_text_clean u Hc) as [Hne Hp].
  now rewrite (getUser_stored st _ Hs Hne), Hp.
Qed.

Lemma well_formed_fields u :
  well_formed_user u = true ->
  exists ps,
    u = VObj ps /\
    is_string (lookup_prop "userId" ps) = true /\
    is_string (lookup_prop "username" ps) = true /\
    is_string (lookup_prop "displayName" ps) = true /\
    is_optional_string (lookup_prop "profilePictureUrl" ps) = true /\
    is_boolean (lookup_prop "isVerified" ps) = true.
Proof.
  destruct u as [| |b|s|l|ps]; try discriminate. intros H. exists ps.
  unfold well_formed_user in H.
  repeat (apply andb_true_iff in H as [H ?]). now repeat split.
Qed.

Lemma is_string_inv o : is_string o = true -> exists s, o = Some (VStr s).
Proof. destruct o as [[| |b|s|l|ps]|]; try discriminate. now exists s. Qed.

Lemma is_boolean_inv o : is_boolean o = true -> exists b, o = Some (VBool b).
Proof. destruct o as [[| |b|s|l|ps]|]; try discriminate. now exists b. Qed.

Lemma text_of_string s : text_of (or_else (VStr s) (VStr "")) = Normal s.
Proof.
  unfold or_else. cbn [truthy]. destruct (String.eqb s "") eqn:E; cbn.
  - apply String.eqb_eq in E. now subst.
  - reflexivity.
Qed.

(** X18: with a well-formed user persisted and the element found,
    [updateElement] writes the user's [displayName] when no property is
    named, the property's text for [username] and [userId], the text [true]
    for a verified user and the empty text for one that is not, and the
    empty text for a name the user does not have. *)
Theorem updateElement_shows_text (ly : layer) (eid : string) (el : element)
    (u : value) :
  well_formed_user u = true ->
  localStorage (core ly) !! STORAGE_KEY = Some (stored_text u) ->
  elements ly !! eid = Some el ->
  let writes property t :=
    updateElement eid property ly = (Normal tt, dom_emit (SetTextContent eid t) ly)
  in
  (exists dn, field u "displayName" = VStr dn /\ writes None dn) /\
  (exists un, field u "username" = VStr un /\ writes (Some "username") un) /\
  (exists i, field u "userId" = VStr i /\ writes (Some "userId") i) /\
  (exists b, field u "isVerified" = VBool b /\
             writes (Some "isVerified") (if b then "true" else "")) /\
  (forall p, field u p = VUndefined -> p <> "profilePictureUrl" ->
             inherited p = false -> writes (Some p) "").
Proof.
  intros Hw Hs He writes.
  pose proof (stored_user_read _ u (well_formed_clean u Hw) Hs) as Hu.
  destruct (well_formed_fields u Hw) as (ps & -> & Hi & Hn & Hd & _ & Hv).
  apply is_string_inv in Hi as [i Hi]. apply is_string_inv in Hn as [un Hn].
  apply is_string_inv in Hd as [dn Hd]. apply is_boolean_inv in Hv as [b Hv].
  cbn [field]. rewrite Hi, Hn, Hd, Hv. cbn [default from_option id].
  split; [|split; [|split; [|split]]].
  - exists dn. split; [reflexivity|].
    apply (updateElement_text ly eid el None ps (VStr dn)); auto.
    + cbn [user_property default from_option id]. now rewrite Hd.
    + apply text_of_string.
  - exists un. split; [reflexivity|].
    apply (updateElement_text ly eid el (Some "username") ps (VStr un)); auto.
    + cbn [user_property default from_option id]. now rewrite Hn.
    + apply text_of_string.
  - exists i. split; [reflexivity|].
    apply (updateElement_text ly eid el (Some "userId") ps (VStr i)); auto.
    + cbn [user_property default from_option id]. now rewrite Hi.
    + apply text_of_string.
  - exists b. split; [reflexivity|].
    apply (updateElement_text ly eid el (Some "isVerified") ps (VBool b)); auto.
    + cbn [user_property default from_option id]. now rewrite Hv.
    + now destruct b.
  - intros p Hp Hpp Hin.
    apply (updateElement_text ly eid el (Some p) ps
             (default VUndefined (lookup_prop p ps))); auto.
    + cbn [default from_option id]. now apply String.eqb_neq.
    + cbn [user_property default from_option id].
      destruct (lookup_prop p ps) as [v|]; [reflexivity|]. now rewrite Hin.
    + now rewrite Hp.
Qed.

Lemma updateElement_shows_text_witness :
  exists dn,
    field Sample.ada "displayName" = VStr dn /\
    updateElement "name" None
      (Doc.loaded (snd (setUser Sample.ada Sample.waiting)))
    = (Normal tt,
       dom_emit (SetTextContent "name" dn)
         (Doc.loaded (snd (setUser Sample.ada Sample.waiting)))).
Proof.
  apply (updateElement_shows_text
           (Doc.loaded (snd (setUser Sample.ada Sample.waiting))) "name"
           {| tagName := "SPAN" |} Sample.ada).
  - reflexivity.
  - reflexivity.
  - reflexivity.
Defined.

(** X19: for [profilePictureUrl] with a well-formed user persisted, the
    picture shown is the user's own when it is a non-empty string and
    otherwise the generated one, whose address ends in the user's [username]
    as it is, without any encoding; an [IMG] element gets it as [src], every
    other element as the background image [url(...)]. *)
Theorem updateElement_shows_picture (ly : layer) (eid : string) (el : element)
    (u : value) :
  well_formed_user u = true ->
  localStorage (core ly) !! STORAGE_KEY = Some (stored_text u) ->
  elements ly !! eid = Some el ->
  exists un url,
    field u "username" = VStr un /\
    url = match field u "profilePictureUrl" with
          | VStr (String c p) => String c p
          | _ => "https://api.dicebear.com/8.x/thumbs/svg?seed=" +:+ un
          end /\
    updateElement eid (Some "profilePictureUrl") ly
    = (Normal tt,
       dom_emit (if String.eqb (tagName el) "IMG" then SetSrc eid url
                 else SetBackgroundImage eid ("url(" +:+ url +:+ ")")) ly).
Proof.
  intros Hw Hs He.
  pose proof (stored_user_read _ u (well_formed_clean u Hw) Hs) as Hu.
  destruct (well_formed_fields u Hw) as (ps & -> & _ & Hn & _ & Hp & _).
  apply is_string_inv in Hn as [un Hn].
  exists un. eexists. cbn [field]. rewrite Hn. split; [reflexivity|].
  split; [reflexivity|].
  rewrite (updateElement_picture ly eid el ps _ Hu He eq_refl Hp un Hn).
  destruct (lookup_prop "profilePictureUrl" ps) as [[| |b|[|c p]|l|qs]|];
    try discriminate Hp; reflexivity.
Qed.

Lemma updateElement_shows_picture_witness :
  updateElement "badge" (Some "profilePictureUrl")
    (Doc.loaded (snd (setUser Sample.ada Sample.waiting)))
  = (Normal tt,
     dom_emit
       (SetBackgroundImage "badge"
          "url(https://api.dicebear.com/8.x/thumbs/svg?seed=ada)")
       (Doc.loaded (snd (setUser Sample.ada Sample.waiting)))).
Proof.
  destruct (updateElement_shows_picture
              (Doc.loaded (snd (setUser Sample.ada Sample.waiting))) "badge"
              {| tagName := "DIV" |} Sample.ada)
    as (un & url & Hun & Hurl & H).
  - reflexivity.
  - reflexivity.
  - reflexivity.
  - rewrite H. subst url. cbn in Hun. injection Hun as <-. reflexivity.
Defined.

(** ** Bound buttons *)

Lemma dispatch_click_app a : forall b eid pg opened ly,
  dispatch_click (a ++ b) eid pg opened ly
  = dispatch_click b eid pg opened (dispatch_click a eid pg opened ly).
Proof.
  induction a as [|[i h] a IH]; intros b eid pg opened ly; [reflexivity|].
  cbn [app dispatch_click]. apply IH.
Qed.

Lemma dispatch_click_others hs eid pg opened : forall ly,
  Forall (fun p => fst p <> eid) hs ->
  dispatch_click hs eid pg opened ly = ly.
Proof.
  induction hs as [|[i h] hs IH]; intros ly H; [reflexivity|].
  apply Forall_cons in H as [Hi H]. cbn [fst] in Hi.
  cbn [dispatch_click].
  assert (String.eqb eid i = false) as -> by (apply String.eqb_neq; congruence).
  now apply IH.
Qed.

Lemma on_click_login eid o pg opened ly :
  snd (on_click eid (ClickShowLogin o) pg opened ly)
  = set_core (step (ShowLogin o pg opened) (core ly))
      (dom_emit (PreventDefault eid) ly).
Proof. reflexivity. Qed.

Lemma on_click_logout eid pg opened ly :
  snd (on_click eid ClickLogout pg opened ly)
  = set_core (step (ApiLogout (Val VUndefined)) (core ly))
      (dom_emit (PreventDefault eid) ly).
Proof. reflexivity. Qed.

Lemma dispatch_click_logins o eid pg opened m : forall ly,
  arg_truthy (API.onSuccess o) = true ->
  callbacks_login
    (core (dispatch_click (repeat (eid, ClickShowLogin o) m) eid pg opened ly))
  = callbacks_login (core ly) ++ repeat (OnSuccessWrapper (API.onSuccess o)) m /\
  click_listeners
    (dispatch_click (repeat (eid, ClickShowLogin o) m) eid pg opened ly)
  = click_listeners ly.
Proof.
  induction m as [|m IH]; intros ly Ho.
  - cbn. now rewrite app_nil_r.
  - cbn [repeat dispatch_click]. rewrite String.eqb_refl, on_click_login.
    destruct (IH (set_core (step (ShowLogin o pg opened) (core ly))
                    (dom_emit (PreventDefault eid) ly)) Ho) as [-> ->].
    cbn [core set_core click_listeners dom_emit].
    rewrite (showLogin_registers o pg opened (core ly) Ho), <- app_assoc.
    split; reflexivity.
Qed.

Lemma bind_times_listens m eid o el : forall ly,
  elements ly !! eid = Some el ->
  bind_times m eid o ly
  = {| core := core ly;
       elements := elements ly;
       isReady := isReady ly;
       readyCallbacks := readyCallbacks ly;
       click_listeners := click_listeners ly ++ repeat (eid, ClickShowLogin o) m;
       dom_trace := dom_trace ly ++ repeat (AddClickListener eid) m |}.
Proof.
  induction m as [|m IH]; intros ly He.
  - cbn. rewrite !app_nil_r. now destruct ly.
  - change (bind_times (S m) eid o ly)
      with (snd (bindLoginButton eid o (bind_times m eid o ly))).
    rewrite (IH ly He). unfold bindLoginButton, lbind, lread, add_click, lact.
    cbn [elements]. rewrite He. unfold_layer.
    rewrite <- !app_assoc.
    change [(eid, ClickShowLogin o)] with (repeat (eid, ClickShowLogin o) 1).
    change [AddClickListener eid] with (repeat (AddClickListener eid) 1).
    rewrite <- !repeat_app, Nat.add_comm. reflexivity.
Qed.

(** X20: every click on a bound login button registers its [onSuccess]
    again.  A button bound [m] times carries [m] listeners, each click runs
    [showLogin] once per listener, and after the clicks the login registry
    is what it was followed by one wrapper for every listener and click. *)
Theorem every_click_registers_again (ly : layer) (eid : string) (el : element)
    (o : API.login_options) (pg : page) (m : nat) (opens : list (option nat)) :
  elements ly !! eid = Some el ->
  unbound eid ly ->
  arg_truthy (API.onSuccess o) = true ->
  callbacks_login (core (clicks eid pg opens (bind_times m eid o ly)))
  = callbacks_login (core ly)
      ++ repeat (OnSuccessWrapper (API.onSuccess o)) (length opens * m).
Proof.
  intros He Hu Ho. rewrite (bind_times_listens m eid o el ly He).
  set (hs := click_listeners ly ++ repeat (eid, ClickShowLogin o) m).
  assert (Hgen : forall ly0,
            click_listeners ly0 = hs ->
            callbacks_login (core (clicks eid pg opens ly0))
            = callbacks_login (core ly0)
                ++ repeat (OnSuccessWrapper (API.onSuccess o))
                     (length opens * m)).
  { induction opens as [|w opens IH]; intros ly0 Hl.
    - cbn. now rewrite app_nil_r.
    - change (clicks eid pg (w :: opens) ly0)
        with (clicks eid pg opens (click eid pg w ly0)).
      assert (Hc : click eid pg w ly0
                   = dispatch_click (repeat (eid, ClickShowLogin o) m) eid pg w
                       ly0).
      { unfold click. rewrite Hl. unfold hs.
        now rewrite dispatch_click_app, (dispatch_click_others _ _ _ _ _ Hu). }
      destruct (dispatch_click_logins o eid pg w m ly0 Ho) as [H1 H2].
      rewrite IH by (rewrite Hc, H2; exact Hl).
      rewrite Hc, H1, <- app_assoc, <- repeat_app. reflexivity. }
  now rewrite Hgen.
Qed.

Lemma every_click_registers_again_witness :
  callbacks_login
    (core (clicks "login" Sample.desktop [Some 7; None; Some 8]
             (bind_times 2 "login" Sample.login_with_callback
                (Doc.loaded Sample.waiting))))
  = callbacks_login Sample.waiting
      ++ repeat (OnSuccessWrapper (Fn (Handler 5 false))) 6.
Proof.
  apply (every_click_registers_again (Doc.loaded Sample.waiting) "login"
           {| tagName := "BUTTON" |} Sample.login_with_callback Sample.desktop
           2 [Some 7; None; Some 8]).
  - reflexivity.
  - constructor.
  - reflexivity.
Defined.

(** X21: a click on a bound logout button logs out as [logout()] without a
    callback does: the session is removed and the logout callbacks are
    called, in order, with the user that was persisted; a second click calls
    them again, with [null]. *)
Theorem logout_button_logs_out (ly : layer) (eid : string) (el : element)
    (u : value) (pg : page) (w w' : option nat) :
  elements ly !! eid = Some el ->
  unbound eid ly ->
  fst (getUser (core ly)) = Normal u ->
  forallb returns (callbacks_logout (core ly)) = true ->
  let once := click eid pg w (snd (bindLogoutButton eid ly)) in
  core once
  = log (RemoveItem STORAGE_KEY :: invocations (callbacks_logout (core ly)) [u])
      (set_localStorage (delete STORAGE_KEY (localStorage (core ly))) (core ly)) /\
  dom_trace once = dom_trace ly ++ [AddClickListener eid; PreventDefault eid] /\
  trace (core (click eid pg w' once))
  = trace (core once)
      ++ RemoveItem STORAGE_KEY
           :: invocations (callbacks_logout (core ly)) [VNull].
Proof.
  intros He Hu Hg Hr once.
  assert (Hb : snd (bindLogoutButton eid ly)
               = dom_emit (AddClickListener eid)
                   (set_click_listeners
                      (click_listeners ly ++ [(eid, ClickLogout)]) ly)).
  { unfold bindLogoutButton, lbind, lread, add_click, lact. now rewrite He. }
  assert (Hc : forall ly0 w0,
            click_listeners ly0 = click_listeners ly ++ [(eid, ClickLogout)] ->
            click eid pg w0 ly0
            = set_core (step (ApiLogout (Val VUndefined)) (core ly0))
                (dom_emit (PreventDefault eid) ly0)).
  { intros ly0 w0 Hl. unfold click. rewrite Hl, dispatch_click_app.
    rewrite (dispatch_click_others _ _ _ _ _ Hu). cbn [dispatch_click].
    now rewrite String.eqb_refl, on_click_logout. }
  assert (Ho : once
               = set_core (step (ApiLogout (Val VUndefined)) (core ly))
                   (dom_emit (PreventDefault eid)
                      (dom_emit (AddClickListener eid)
                         (set_click_listeners
                            (click_listeners ly ++ [(eid, ClickLogout)]) ly)))).
  { unfold once. rewrite Hb. now rewrite Hc. }
  rewrite (apiLogout_plain (core ly) u Hg Hr) in Ho.
  split; [now rewrite Ho|]. split.
  { rewrite Ho. unfold_layer. now rewrite <- app_assoc. }
  rewrite (Hc once) by now rewrite Ho.
  cbn [core set_core].
  rewrite (apiLogout_plain (core once) VNull).
  - rewrite Ho. reflexivity.
  - rewrite getUser_absent; [reflexivity|].
    rewrite Ho. unfold_layer. unfold_state. apply lookup_delete_eq.
  - rewrite Ho. exact Hr.
Qed.

Lemma logout_button_logs_out_witness :
  trace
    (core (click "logout" Sample.desktop None
             (snd (bindLogoutButton "logout"
                     (Doc.loaded (snd (setUser Sample.ada Sample.waiting)))))))
  = trace (snd (setUser Sample.ada Sample.waiting))
      ++ [RemoveItem STORAGE_KEY; Called 3 [Sample.ada]; Called 4 [Sample.ada]].
Proof.
  destruct (logout_button_logs_out
              (Doc.loaded (snd (setUser Sample.ada Sample.waiting))) "logout"
              {| tagName := "A" |} Sample.ada Sample.desktop None None)
    as (H & _).
  - reflexivity.
  - constructor.
  - vm_compute. reflexivity.
  - reflexivity.
  - rewrite H. reflexivity.
Defined.
